(** * MD_Gamepad: a shallow embedding of [MD_Gamepad.h]

    The library polls seven digital switches and two analog joystick axes of
    a joystick shield.  Every method talks to the Arduino core ([millis],
    [digitalRead], [analogRead], [pinMode]); the core is not part of the
    library, so it is modelled as a [Board] that answers each primitive call,
    and every call is recorded in a trace.  The methods of the class are
    computations in a small state monad over the trace and the object's
    fields. *)

From Stdlib Require Import ZArith List Bool Lia.
Import ListNotations.
Local Open Scope Z_scope.

(** ** Fixed-width integers *)

(** Conversion to [uint8_t], [uint16_t], [uint32_t]: reduction modulo 2^w. *)
Definition wrap_u8 (z : Z) : Z := z mod 2 ^ 8.
Definition wrap_u16 (z : Z) : Z := z mod 2 ^ 16.
Definition wrap_u32 (z : Z) : Z := z mod 2 ^ 32.

(** Conversion to [int16_t]: the representative of [z] modulo 2^16 that lies
    in [-2^15, 2^15). *)
Definition wrap_i16 (z : Z) : Z := (z + 2 ^ 15) mod 2 ^ 16 - 2 ^ 15.

(** ** Constants of the header *)

Definition DEFAULT_DELAY : Z := 100.
Definition DEFAULT_DB : Z := 5.

Definition PIN_A : Z := 2.
Definition PIN_B : Z := 3.
Definition PIN_C : Z := 4.
Definition PIN_D : Z := 5.
Definition PIN_E : Z := 6.
Definition PIN_F : Z := 7.
Definition PIN_K : Z := 8.

(** ** The Arduino core *)

(** Pin levels and pin modes of [Arduino.h]. *)
Definition LOW : Z := 0.
Definition HIGH : Z := 1.

Inductive pin_mode : Type := INPUT | OUTPUT | INPUT_PULLUP.

(** The [abs] macro of [Arduino.h], [((x)>0?(x):-(x))], on a promoted [int].
    Where [int] has 16 bits the negation overflows at -32768; no statement
    below depends on the value of [abs] there. *)
Definition abs (x : Z) : Z := if x >? 0 then x else - x.

(** One call of a primitive of the core, with what it returned. *)
Inductive event : Type :=
| EvPinMode (pin : Z) (m : pin_mode)
| EvMillis (t : Z)
| EvDigitalRead (pin : Z) (v : Z)
| EvAnalogRead (pin : Z) (v : Z).

(** A board: the pin numbers [A0] and [A1] of its variant file, and what the
    clock and the pins show at the n-th primitive call of the sketch.  The
    clock may advance, and the pins may change, between any two calls. *)
Record Board : Type := mkBoard {
  A0 : Z;
  A1 : Z;
  clock : nat -> Z;
  pin_high : nat -> Z -> bool;
  adc : nat -> Z -> Z
}.

Definition PIN_X (b : Board) : Z := A0 b.
Definition PIN_Y (b : Board) : Z := A1 b.

(** ** The class *)

Inductive switch_t : Type :=
| SW_NONE | SW_A | SW_B | SW_C | SW_D | SW_E | SW_F | SW_K | SW_X | SW_Y.

Definition switch_eqb (a b : switch_t) : bool :=
  match a, b with
  | SW_NONE, SW_NONE | SW_A, SW_A | SW_B, SW_B | SW_C, SW_C | SW_D, SW_D
  | SW_E, SW_E | SW_F, SW_F | SW_K, SW_K | SW_X, SW_X | SW_Y, SW_Y => true
  | _, _ => false
  end.

Record pin2sw_t : Type := mkPin2sw { pin : Z; sw : switch_t }.

(** The lookup table from digital pin to switch ID, in declaration order. *)
Definition _pinDigital : list pin2sw_t :=
  [ mkPin2sw PIN_A SW_A; mkPin2sw PIN_B SW_B; mkPin2sw PIN_C SW_C;
    mkPin2sw PIN_D SW_D; mkPin2sw PIN_E SW_E; mkPin2sw PIN_F SW_F;
    mkPin2sw PIN_K SW_K ].

(** The data members.  Each field holds the value of a fixed-width integer;
    stores go through the conversion of the member's type. *)
Record MD_Gamepad : Type := mkGamepad {
  _timeLastDigital : Z;   (* uint32_t *)
  _timeLastAnalog : Z;    (* uint32_t *)
  _timeBetweenReads : Z;  (* uint16_t *)
  _deadband : Z;          (* uint8_t *)
  _offsetX : Z;           (* uint16_t *)
  _offsetY : Z;           (* uint16_t *)
  _valueX : Z;            (* int16_t *)
  _valueY : Z             (* int16_t *)
}.

Definition set_timeLastDigital (v : Z) (g : MD_Gamepad) : MD_Gamepad :=
  mkGamepad (wrap_u32 v) (_timeLastAnalog g) (_timeBetweenReads g)
            (_deadband g) (_offsetX g) (_offsetY g) (_valueX g) (_valueY g).
Definition set_timeLastAnalog (v : Z) (g : MD_Gamepad) : MD_Gamepad :=
  mkGamepad (_timeLastDigital g) (wrap_u32 v) (_timeBetweenReads g)
            (_deadband g) (_offsetX g) (_offsetY g) (_valueX g) (_valueY g).
Definition set_timeBetweenReads (v : Z) (g : MD_Gamepad) : MD_Gamepad :=
  mkGamepad (_timeLastDigital g) (_timeLastAnalog g) (wrap_u16 v)
            (_deadband g) (_offsetX g) (_offsetY g) (_valueX g) (_valueY g).
Definition set_deadband (v : Z) (g : MD_Gamepad) : MD_Gamepad :=
  mkGamepad (_timeLastDigital g) (_timeLastAnalog g) (_timeBetweenReads g)
            (wrap_u8 v) (_offsetX g) (_offsetY g) (_valueX g) (_valueY g).
Definition set_offsetX (v : Z) (g : MD_Gamepad) : MD_Gamepad :=
  mkGamepad (_timeLastDigital g) (_timeLastAnalog g) (_timeBetweenReads g)
            (_deadband g) (wrap_u16 v) (_offsetY g) (_valueX g) (_valueY g).
Definition set_offsetY (v : Z) (g : MD_Gamepad) : MD_Gamepad :=
  mkGamepad (_timeLastDigital g) (_timeLastAnalog g) (_timeBetweenReads g)
            (_deadband g) (_offsetX g) (wrap_u16 v) (_valueX g) (_valueY g).
Definition set_valueX (v : Z) (g : MD_Gamepad) : MD_Gamepad :=
  mkGamepad (_timeLastDigital g) (_timeLastAnalog g) (_timeBetweenReads g)
            (_deadband g) (_offsetX g) (_offsetY g) (wrap_i16 v) (_valueY g).
Definition set_valueY (v : Z) (g : MD_Gamepad) : MD_Gamepad :=
  mkGamepad (_timeLastDigital g) (_timeLastAnalog g) (_timeBetweenReads g)
            (_deadband g) (_offsetX g) (_offsetY g) (_valueX g) (wrap_i16 v).

(** The single instance declared by the library: an object of static storage
    duration, so every scalar member starts at zero. *)
Definition gamepad : MD_Gamepad := mkGamepad 0 0 0 0 0 0 0 0.

(** ** The monad of a running sketch *)

(** The state of a sketch: the primitive calls made so far, newest first, and
    the fields of the object. *)
Record Sketch : Type := mkSketch { trace : list event; self : MD_Gamepad }.

Definition M (A : Type) : Type := Board -> Sketch -> A * Sketch.

Definition ret {A : Type} (a : A) : M A := fun _ s => (a, s).

Definition bind {A B : Type} (m : M A) (k : A -> M B) : M B :=
  fun b s => let (a, s') := m b s in k a b s'.

Declare Scope gp_scope.
Delimit Scope gp_scope with gp.
Notation "x <- m ;; k" := (bind m (fun x => k))
  (at level 61, m at next level, right associativity) : gp_scope.
Notation "m ;; k" := (bind m (fun _ => k))
  (at level 61, right associativity) : gp_scope.
Local Open Scope gp_scope.

(** Reading and updating the object. *)
Definition this : M MD_Gamepad := fun _ s => (self s, s).
Definition update (f : MD_Gamepad -> MD_Gamepad) : M unit :=
  fun _ s => (tt, mkSketch (trace s) (f (self s))).

(** A constant of the board. *)
Definition board {A : Type} (f : Board -> A) : M A := fun b s => (f b, s).

(** The primitives.  The index of a call is the number of calls before it. *)
Definition emit (e : event) : M unit :=
  fun _ s => (tt, mkSketch (e :: trace s) (self s)).

Definition ticks : M nat := fun _ s => (length (trace s), s).

(** [unsigned long millis()] *)
Definition millis : M Z :=
  n <- ticks ;;
  t <- board (fun b => wrap_u32 (clock b n)) ;;
  emit (EvMillis t) ;;
  ret t.

(** [int digitalRead(uint8_t pin)] *)
Definition digitalRead (p : Z) : M Z :=
  n <- ticks ;;
  v <- board (fun b => if pin_high b n p then HIGH else LOW) ;;
  emit (EvDigitalRead p v) ;;
  ret v.

(** [int analogRead(uint8_t pin)] *)
Definition analogRead (p : Z) : M Z :=
  n <- ticks ;;
  v <- board (fun b => adc b n p) ;;
  emit (EvAnalogRead p v) ;;
  ret v.

(** [void pinMode(uint8_t pin, uint8_t mode)] *)
Definition pinMode (p : Z) (m : pin_mode) : M unit := emit (EvPinMode p m).

(** ** The methods *)

(** The difference of two [unsigned long] values (32 bits on an Arduino). *)
Definition sub_u32 (a b : Z) : Z := wrap_u32 (a - b).

(** [for (i = 0; i < ARRAY_SIZE(_pinDigital); i++) pinMode(_pinDigital[i].pin, INPUT_PULLUP);] *)
Fixpoint pullup_all (tbl : list pin2sw_t) : M unit :=
  match tbl with
  | [] => ret tt
  | e :: rest => pinMode (pin e) INPUT_PULLUP ;; pullup_all rest
  end.

(** [void begin(void)] *)
Definition begin : M unit :=
  pullup_all _pinDigital ;;
  px <- board PIN_X ;;
  pinMode px INPUT ;;
  py <- board PIN_Y ;;
  pinMode py INPUT ;;
  update (set_timeBetweenReads DEFAULT_DELAY) ;;
  update (set_deadband DEFAULT_DB) ;;
  x <- analogRead px ;;
  update (set_offsetX x) ;;
  y <- analogRead py ;;
  update (set_offsetY y).

(** [inline void setReadDelay(uint16_t d)] *)
Definition setReadDelay (d : Z) : M unit :=
  update (set_timeBetweenReads d).

(** The scan loop of [getSwitch]: the first pin found low ends the loop. *)
Fixpoint scan (tbl : list pin2sw_t) : M switch_t :=
  match tbl with
  | [] => ret SW_NONE
  | e :: rest =>
      v <- digitalRead (pin e) ;;
      if v =? LOW then ret (sw e) else scan rest
  end.

(** [switch_t getSwitch(void)] *)
Definition getSwitch : M switch_t :=
  now <- millis ;;
  g <- this ;;
  if sub_u32 now (_timeLastDigital g) <? _timeBetweenReads g then
    ret SW_NONE
  else
    now' <- millis ;;
    update (set_timeLastDigital now') ;;
    scan _pinDigital.

(** [inline bool anyKey(void)] *)
Definition anyKey : M bool :=
  s <- getSwitch ;;
  ret (negb (switch_eqb s SW_NONE)).

(** [int16_t getJoystickValue(switch_t sw)] *)
Definition getJoystickValue (sw : switch_t) : M Z :=
  now <- millis ;;
  g <- this ;;
  if sub_u32 now (_timeLastAnalog g) <? _timeBetweenReads g then
    ret (if switch_eqb sw SW_X then _valueX g else _valueY g)
  else
    now' <- millis ;;
    update (set_timeLastAnalog now') ;;
    match sw with
    | SW_X =>
        px <- board PIN_X ;;
        raw <- analogRead px ;;
        g <- this ;;
        update (set_valueX (raw - _offsetX g)) ;;
        g <- this ;;
        (if abs (_valueX g) <? _deadband g
         then update (set_valueX 0) else ret tt) ;;
        g <- this ;;
        ret (_valueX g)
    | SW_Y =>
        py <- board PIN_Y ;;
        raw <- analogRead py ;;
        g <- this ;;
        update (set_valueY (raw - _offsetY g)) ;;
        g <- this ;;
        (if abs (_valueY g) <? _deadband g
         then update (set_valueY 0) else ret tt) ;;
        g <- this ;;
        ret (_valueY g)
    | _ => ret 0
    end.

(** [int8_t getJoystickDirection(switch_t sw)] *)
Definition getJoystickDirection (sw : switch_t) : M Z :=
  now <- millis ;;
  g <- this ;;
  if sub_u32 now (_timeLastAnalog g) <? _timeBetweenReads g then
    ret 0
  else
    v <- getJoystickValue sw ;;
    ret (if v =? 0 then 0 else if v <? 0 then -1 else 1).

(** ** Observations on a run *)

(** What the clock shows at the n-th primitive call, as [millis] returns it. *)
Definition time_at (b : Board) (n : nat) : Z := wrap_u32 (clock b n).

(** The number of primitive calls a computation makes from a given state. *)
Definition calls_made {A : Type} (m : M A) (b : Board) (s : Sketch) : nat :=
  (length (trace (snd (m b s))) - length (trace s))%nat.

(** A call of a reading method is gated when it ends right after its first
    clock reading: no timestamp is refreshed and no pin is read. *)
Definition gated {A : Type} (m : M A) (b : Board) (s : Sketch) : bool :=
  (calls_made m b s =? 1)%nat.

(** The number of analog samples recorded in a trace. *)
Fixpoint analog_reads (tr : list event) : nat :=
  match tr with
  | [] => O
  | EvAnalogRead _ _ :: rest => S (analog_reads rest)
  | _ :: rest => analog_reads rest
  end.

(** The spec's deadband: a value strictly inside the band is forced to 0. *)
Definition deadbanded (v db : Z) : Z := if Z.abs v <? db then 0 else v.

(** [k] consecutive calls of a method, with the list of their results. *)
Fixpoint repeat_call {A : Type} (m : M A) (k : nat) : M (list A) :=
  match k with
  | O => ret []
  | S k' => v <- m ;; vs <- repeat_call m k' ;; ret (v :: vs)
  end.

(** ** A simulated board for examples *)

(** A board with the pin numbers of an Uno, whose clock shows [t0 + n] at
    call [n], with the pins listed in [low] held low and the given samples
    on the two analog pins. *)
Definition sim_board (t0 : Z) (low : list Z) (ax ay : nat -> Z) : Board :=
  mkBoard 14 15
    (fun n => t0 + Z.of_nat n)
    (fun _ p => negb (existsb (Z.eqb p) low))
    (fun n p => if p =? 14 then ax n else if p =? 15 then ay n else 0).

(** ** Definitions used in the statements *)

(** The cached value [getJoystickValue] hands back inside the gate window:
    the X cache for [SW_X], the Y cache for every other selector. *)
Definition cached (sw : switch_t) (g : MD_Gamepad) : Z :=
  if switch_eqb sw SW_X then _valueX g else _valueY g.

(** The value an axis read stores and returns: the difference converted to
    [int16_t], then the deadband test of the source. *)
Definition conditioned (raw off db : Z) : Z :=
  if abs (wrap_i16 (raw - off)) <? db then 0 else wrap_i16 (raw - off).

(** With steady pin levels during the scan, the result is the first entry of
    the table whose pin is low. *)
Definition first_low (lv : Z -> bool) (tbl : list pin2sw_t) : switch_t :=
  match find (fun e => negb (lv (pin e))) tbl with
  | Some e => sw e
  | None => SW_NONE
  end.

(** The configuration of an object: interval, deadband and zero offsets. *)
Definition config (g : MD_Gamepad) : Z * Z * Z * Z :=
  (_timeBetweenReads g, _deadband g, _offsetX g, _offsetY g).

(** A board on which the X axis rests at 512 and the Y axis rests at 500
    while [begin] runs and is pushed to 700 afterwards. *)
Definition stick_board : Board :=
  sim_board 1000 [] (fun _ => 512)
            (fun n => if (n <? 12)%nat then 500 else 700).

(** One call of a public member of the class, its result dropped. *)
Inductive call : Type :=
| CallBegin
| CallSetReadDelay (d : Z)
| CallAnyKey
| CallGetSwitch
| CallGetJoystickDirection (sw : switch_t)
| CallGetJoystickValue (sw : switch_t).

Definition perform (c : call) : M unit :=
  match c with
  | CallBegin => begin
  | CallSetReadDelay d => setReadDelay d
  | CallAnyKey => _ <- anyKey ;; ret tt
  | CallGetSwitch => _ <- getSwitch ;; ret tt
  | CallGetJoystickDirection sw => _ <- getJoystickDirection sw ;; ret tt
  | CallGetJoystickValue sw => _ <- getJoystickValue sw ;; ret tt
  end.

Fixpoint perform_all (cs : list call) : M unit :=
  match cs with
  | [] => ret tt
  | c :: rest => perform c ;; perform_all rest
  end.

(** The interval a sequence of calls leaves configured. *)
Definition configure (interval : Z) (c : call) : Z :=
  match c with
  | CallBegin => DEFAULT_DELAY
  | CallSetReadDelay d => wrap_u16 d
  | _ => interval
  end.

Definition configured (cs : list call) : Z :=
  fold_left configure cs DEFAULT_DELAY.

(** The same board with its clock advanced by [k] milliseconds. *)
Definition shift_board (k : Z) (b : Board) : Board :=
  mkBoard (A0 b) (A1 b) (fun n => clock b n + k) (pin_high b) (adc b).

(** The same object with both timestamps advanced by [k] milliseconds. *)
Definition shift_gamepad (k : Z) (g : MD_Gamepad) : MD_Gamepad :=
  mkGamepad (wrap_u32 (_timeLastDigital g + k))
            (wrap_u32 (_timeLastAnalog g + k))
            (_timeBetweenReads g) (_deadband g) (_offsetX g) (_offsetY g)
            (_valueX g) (_valueY g).

Definition shift_sketch (k : Z) (s : Sketch) : Sketch :=
  mkSketch (trace s) (shift_gamepad k (self s)).

(** The mode a pin was given last in a trace, if it was given one. *)
Fixpoint mode_of (tr : list event) (p : Z) : option pin_mode :=
  match tr with
  | [] => None
  | EvPinMode q m :: rest => if q =? p then Some m else mode_of rest p
  | _ :: rest => mode_of rest p
  end.

(** The pin reads a scan records when it finds the given entries high, the
    newest first. *)
Definition reads_high (tbl : list pin2sw_t) : list event :=
  rev (map (fun e => EvDigitalRead (pin e) HIGH) tbl).

(** Whether some entry of a table has its pin low under the given levels. *)
Definition some_low (lv : Z -> bool) (tbl : list pin2sw_t) : bool :=
  existsb (fun e => negb (lv (pin e))) tbl.

(** The three-way classification of a difference against a deadband. *)
Definition side (d db : Z) : Z :=
  if db <=? d then 1 else if d <=? - db then -1 else 0.

(** The number of clock readings recorded in a trace. *)
Fixpoint clock_reads (tr : list event) : nat :=
  match tr with
  | [] => O
  | EvMillis _ :: rest => S (clock_reads rest)
  | _ :: rest => clock_reads rest
  end.


(** ** Arithmetic of the conversions *)

Lemma wrap_u32_idem (z : Z) : wrap_u32 (wrap_u32 z) = wrap_u32 z.
Proof. unfold wrap_u32. apply Z.mod_mod. lia. Qed.

Lemma wrap_u32_range (z : Z) : 0 <= wrap_u32 z < 2 ^ 32.
Proof. unfold wrap_u32. apply Z.mod_pos_bound. lia. Qed.

Lemma wrap_u16_small (z : Z) : 0 <= z < 2 ^ 16 -> wrap_u16 z = z.
Proof. intros H. unfold wrap_u16. apply Z.mod_small. exact H. Qed.

Lemma wrap_i16_small (z : Z) : - 2 ^ 15 <= z < 2 ^ 15 -> wrap_i16 z = z.
Proof.
  intros H. unfold wrap_i16. rewrite Z.mod_small; lia.
Qed.

Lemma abs_Zabs (x : Z) : abs x = Z.abs x.
Proof. unfold abs. destruct (Z.gtb_spec x 0); lia. Qed.

Lemma sub_u32_range (a b : Z) : 0 <= sub_u32 a b < 2 ^ 32.
Proof. apply wrap_u32_range. Qed.

(** ** Running the methods *)

(** Unfolds the primitives and the monad in a goal about one run. *)
Ltac run_gp :=
  unfold millis, digitalRead, analogRead, pinMode, bind, ticks, board, emit,
         this, update, ret; cbn [fst snd trace self length].

(** *** The digital scan *)

Lemma getSwitch_gated (b : Board) (tr : list event) (g : MD_Gamepad) :
  sub_u32 (time_at b (length tr)) (_timeLastDigital g) < _timeBetweenReads g ->
  getSwitch b (mkSketch tr g) =
  (SW_NONE, mkSketch (EvMillis (time_at b (length tr)) :: tr) g).
Proof.
  intros H. apply Z.ltb_lt in H.
  unfold getSwitch. run_gp. fold (time_at b (length tr)).
  rewrite H. reflexivity.
Qed.

Lemma getSwitch_due (b : Board) (tr : list event) (g : MD_Gamepad) :
  _timeBetweenReads g <= sub_u32 (time_at b (length tr)) (_timeLastDigital g) ->
  getSwitch b (mkSketch tr g) =
  scan _pinDigital b
    (mkSketch (EvMillis (time_at b (S (length tr)))
                 :: EvMillis (time_at b (length tr)) :: tr)
              (set_timeLastDigital (time_at b (S (length tr))) g)).
Proof.
  intros H. apply Z.ltb_ge in H.
  unfold getSwitch. run_gp. fold (time_at b (length tr)).
  rewrite H. reflexivity.
Qed.

(** The scan only reads pins: the object is left as it was. *)
Lemma scan_self (tbl : list pin2sw_t) (b : Board) (s : Sketch) :
  self (snd (scan tbl b s)) = self s.
Proof.
  revert s. induction tbl as [|e rest IH]; intros s; [reflexivity|].
  cbn [scan]. run_gp.
  destruct (pin_high b (length (trace s)) (pin e)); cbn.
  - rewrite IH. reflexivity.
  - reflexivity.
Qed.

(** The scan reads at least one pin of a non-empty table. *)
Lemma scan_trace_grows (tbl : list pin2sw_t) (b : Board) (s : Sketch) :
  tbl <> [] ->
  (length (trace s) < length (trace (snd (scan tbl b s))))%nat.
Proof.
  revert s. induction tbl as [|e rest IH]; intros s Hne; [congruence|].
  cbn [scan]. run_gp.
  destruct (pin_high b (length (trace s)) (pin e)); cbn.
  - destruct rest as [|e' rest'].
    + cbn. lia.
    + specialize (IH (mkSketch
                        (EvDigitalRead (pin e) HIGH :: trace s) (self s))).
      cbn [trace length] in IH. assert (e' :: rest' <> []) by congruence.
      specialize (IH H). lia.
  - lia.
Qed.

(** The entry at index [i] is reported when its pin reads low at its turn and
    every earlier entry read high at its own turn. *)
Lemma scan_first_low (tbl : list pin2sw_t) (b : Board) (s : Sketch)
      (i : nat) (e : pin2sw_t) :
  nth_error tbl i = Some e ->
  pin_high b (length (trace s) + i) (pin e) = false ->
  (forall j e', (j < i)%nat -> nth_error tbl j = Some e' ->
                pin_high b (length (trace s) + j) (pin e') = true) ->
  fst (scan tbl b s) = sw e.
Proof.
  revert s i. induction tbl as [|e0 rest IH]; intros s i Hi Hlow Hbefore.
  - destruct i; discriminate.
  - cbn [scan]. run_gp. destruct i as [|i].
    + cbn in Hi. injection Hi as ->. rewrite Nat.add_0_r in Hlow.
      rewrite Hlow. reflexivity.
    + assert (H0 : pin_high b (length (trace s)) (pin e0) = true).
      { rewrite <- (Nat.add_0_r (length (trace s))).
        apply Hbefore; [lia | reflexivity]. }
      rewrite H0. cbn.
      apply (IH _ i); cbn [trace length].
      * exact Hi.
      * rewrite <- Hlow. f_equal. lia.
      * intros j e' Hj Hn.
        replace (S (length (trace s)) + j)%nat
          with (length (trace s) + S j)%nat by lia.
        apply Hbefore; [lia | exact Hn].
Qed.

(** When every entry reads high at its turn the scan reports nothing. *)
Lemma scan_none (tbl : list pin2sw_t) (b : Board) (s : Sketch) :
  (forall j e', nth_error tbl j = Some e' ->
                pin_high b (length (trace s) + j) (pin e') = true) ->
  fst (scan tbl b s) = SW_NONE.
Proof.
  revert s. induction tbl as [|e0 rest IH]; intros s Hall; [reflexivity|].
  cbn [scan]. run_gp.
  assert (H0 : pin_high b (length (trace s)) (pin e0) = true).
  { rewrite <- (Nat.add_0_r (length (trace s))). apply Hall. reflexivity. }
  rewrite H0. cbn. apply IH. cbn [trace length].
  intros j e' Hn.
  replace (S (length (trace s)) + j)%nat
    with (length (trace s) + S j)%nat by lia.
  apply Hall. exact Hn.
Qed.

(** *** The analog reads *)

Lemma getJoystickValue_gated (sw : switch_t) (b : Board) (tr : list event)
      (g : MD_Gamepad) :
  sub_u32 (time_at b (length tr)) (_timeLastAnalog g) < _timeBetweenReads g ->
  getJoystickValue sw b (mkSketch tr g) =
  (cached sw g, mkSketch (EvMillis (time_at b (length tr)) :: tr) g).
Proof.
  intros H. apply Z.ltb_lt in H.
  unfold getJoystickValue. run_gp. fold (time_at b (length tr)).
  rewrite H. reflexivity.
Qed.

Lemma getJoystickValue_due_X (b : Board) (tr : list event) (g : MD_Gamepad) :
  _timeBetweenReads g <= sub_u32 (time_at b (length tr)) (_timeLastAnalog g) ->
  let t1 := time_at b (length tr) in
  let t2 := time_at b (S (length tr)) in
  let raw := adc b (S (S (length tr))) (PIN_X b) in
  let v := conditioned raw (_offsetX g) (_deadband g) in
  getJoystickValue SW_X b (mkSketch tr g) =
  (v, mkSketch (EvAnalogRead (PIN_X b) raw :: EvMillis t2 :: EvMillis t1 :: tr)
        (mkGamepad (_timeLastDigital g) (wrap_u32 t2) (_timeBetweenReads g)
           (_deadband g) (_offsetX g) (_offsetY g) v (_valueY g))).
Proof.
  intros H. apply Z.ltb_ge in H. intros t1 t2 raw v.
  unfold getJoystickValue. run_gp. fold (time_at b (length tr)).
  rewrite H. cbn. fold (time_at b (S (length tr))).
  subst v. unfold conditioned. fold t2. fold raw.
  destruct (abs (wrap_i16 (raw - _offsetX g)) <? _deadband g); reflexivity.
Qed.

Lemma getJoystickValue_due_Y (b : Board) (tr : list event) (g : MD_Gamepad) :
  _timeBetweenReads g <= sub_u32 (time_at b (length tr)) (_timeLastAnalog g) ->
  let t1 := time_at b (length tr) in
  let t2 := time_at b (S (length tr)) in
  let raw := adc b (S (S (length tr))) (PIN_Y b) in
  let v := conditioned raw (_offsetY g) (_deadband g) in
  getJoystickValue SW_Y b (mkSketch tr g) =
  (v, mkSketch (EvAnalogRead (PIN_Y b) raw :: EvMillis t2 :: EvMillis t1 :: tr)
        (mkGamepad (_timeLastDigital g) (wrap_u32 t2) (_timeBetweenReads g)
           (_deadband g) (_offsetX g) (_offsetY g) (_valueX g) v)).
Proof.
  intros H. apply Z.ltb_ge in H. intros t1 t2 raw v.
  unfold getJoystickValue. run_gp. fold (time_at b (length tr)).
  rewrite H. cbn. fold (time_at b (S (length tr))).
  subst v. unfold conditioned. fold t2. fold raw.
  destruct (abs (wrap_i16 (raw - _offsetY g)) <? _deadband g); reflexivity.
Qed.

Lemma getJoystickValue_due_other (sw : switch_t) (b : Board)
      (tr : list event) (g : MD_Gamepad) :
  sw <> SW_X -> sw <> SW_Y ->
  _timeBetweenReads g <= sub_u32 (time_at b (length tr)) (_timeLastAnalog g) ->
  getJoystickValue sw b (mkSketch tr g) =
  (0, mkSketch (EvMillis (time_at b (S (length tr)))
                  :: EvMillis (time_at b (length tr)) :: tr)
               (set_timeLastAnalog (time_at b (S (length tr))) g)).
Proof.
  intros HX HY H. apply Z.ltb_ge in H.
  unfold getJoystickValue. run_gp. fold (time_at b (length tr)).
  rewrite H. destruct sw; try congruence; reflexivity.
Qed.

(** Without wrap-around the stored value is the spec's: difference, then
    deadband. *)
Lemma conditioned_exact (raw off db : Z) :
  - 2 ^ 15 <= raw - off < 2 ^ 15 ->
  conditioned raw off db = deadbanded (raw - off) db.
Proof.
  intros H. unfold conditioned, deadbanded.
  rewrite (wrap_i16_small _ H), abs_Zabs.
  destruct (Z.abs (raw - off) <? db); reflexivity.
Qed.

(** The classification of [getJoystickDirection] is the sign. *)
Lemma direction_sgn (v : Z) :
  (if v =? 0 then 0 else if v <? 0 then -1 else 1) = Z.sgn v.
Proof.
  destruct (Z.eqb_spec v 0) as [->|Hv]; [reflexivity|].
  destruct (Z.ltb_spec v 0); lia.
Qed.

Lemma getJoystickDirection_gated (sw : switch_t) (b : Board)
      (tr : list event) (g : MD_Gamepad) :
  sub_u32 (time_at b (length tr)) (_timeLastAnalog g) < _timeBetweenReads g ->
  getJoystickDirection sw b (mkSketch tr g) =
  (0, mkSketch (EvMillis (time_at b (length tr)) :: tr) g).
Proof.
  intros H. apply Z.ltb_lt in H.
  unfold getJoystickDirection. run_gp. fold (time_at b (length tr)).
  rewrite H. reflexivity.
Qed.

Lemma getJoystickDirection_due (sw : switch_t) (b : Board)
      (tr : list event) (g : MD_Gamepad) :
  _timeBetweenReads g <= sub_u32 (time_at b (length tr)) (_timeLastAnalog g) ->
  let r := getJoystickValue sw b
             (mkSketch (EvMillis (time_at b (length tr)) :: tr) g) in
  getJoystickDirection sw b (mkSketch tr g) = (Z.sgn (fst r), snd r).
Proof.
  intros H. apply Z.ltb_ge in H. intros r.
  unfold getJoystickDirection. run_gp. fold (time_at b (length tr)).
  rewrite H. fold r. destruct r as [v s']. cbn [fst snd].
  rewrite direction_sgn. reflexivity.
Qed.

Lemma scan_steady (tbl : list pin2sw_t) (b : Board) (s : Sketch)
      (lv : Z -> bool) :
  (forall k p, (k < length tbl)%nat ->
               pin_high b (length (trace s) + k) p = lv p) ->
  fst (scan tbl b s) = first_low lv tbl.
Proof.
  revert s. induction tbl as [|e rest IH]; intros s Hlv; [reflexivity|].
  cbn [scan]. run_gp. unfold first_low. cbn [find].
  assert (H0 : pin_high b (length (trace s)) (pin e) = lv (pin e)).
  { rewrite <- (Nat.add_0_r (length (trace s))). apply Hlv. cbn. lia. }
  rewrite H0. destruct (lv (pin e)); cbn; [|reflexivity].
  apply IH. cbn [trace length]. intros k p Hk.
  replace (S (length (trace s)) + k)%nat
    with (length (trace s) + S k)%nat by lia.
  apply Hlv. cbn. lia.
Qed.

(** *** Which calls are gated *)

Lemma one_call (n : nat) : (S n - n =? 1)%nat = true.
Proof. apply Nat.eqb_eq. lia. Qed.

Lemma gated_getSwitch (b : Board) (s : Sketch) :
  gated getSwitch b s =
  (sub_u32 (time_at b (length (trace s))) (_timeLastDigital (self s))
   <? _timeBetweenReads (self s)).
Proof.
  destruct s as [tr g]. cbn [trace self]. unfold gated, calls_made.
  destruct (Z.ltb_spec (sub_u32 (time_at b (length tr)) (_timeLastDigital g))
                       (_timeBetweenReads g)) as [H|H].
  - rewrite (getSwitch_gated _ _ _ H). cbn [snd trace length].
    apply one_call.
  - rewrite (getSwitch_due _ _ _ H). apply Nat.eqb_neq.
    match goal with
    | |- context [scan ?t b ?s0] =>
        pose proof (scan_trace_grows t b s0) as G
    end.
    cbn [trace length] in G |- *.
    assert (_pinDigital <> []) as Hne by discriminate.
    specialize (G Hne). lia.
Qed.

Lemma getJoystickValue_calls (sw : switch_t) (b : Board) (s : Sketch) :
  (length (trace s) < length (trace (snd (getJoystickValue sw b s))))%nat.
Proof.
  destruct s as [tr g].
  destruct (Z.lt_ge_cases
              (sub_u32 (time_at b (length tr)) (_timeLastAnalog g))
              (_timeBetweenReads g)) as [H|H].
  - rewrite (getJoystickValue_gated _ _ _ _ H). cbn. lia.
  - destruct sw;
      try (rewrite getJoystickValue_due_other by (congruence || exact H);
           cbn; lia).
    + pose proof (getJoystickValue_due_X _ _ _ H) as E. cbv zeta in E.
      rewrite E. cbn. lia.
    + pose proof (getJoystickValue_due_Y _ _ _ H) as E. cbv zeta in E.
      rewrite E. cbn. lia.
Qed.

Lemma gated_getJoystickValue (sw : switch_t) (b : Board) (s : Sketch) :
  gated (getJoystickValue sw) b s =
  (sub_u32 (time_at b (length (trace s))) (_timeLastAnalog (self s))
   <? _timeBetweenReads (self s)).
Proof.
  destruct s as [tr g]. cbn [trace self]. unfold gated, calls_made.
  destruct (Z.ltb_spec (sub_u32 (time_at b (length tr)) (_timeLastAnalog g))
                       (_timeBetweenReads g)) as [H|H].
  - rewrite (getJoystickValue_gated _ _ _ _ H). cbn [snd trace length].
    apply one_call.
  - apply Nat.eqb_neq. destruct sw;
      try (rewrite getJoystickValue_due_other by (congruence || exact H);
           cbn [snd trace length]; lia).
    + pose proof (getJoystickValue_due_X _ _ _ H) as E. cbv zeta in E.
      rewrite E. cbn [snd trace length]. lia.
    + pose proof (getJoystickValue_due_Y _ _ _ H) as E. cbv zeta in E.
      rewrite E. cbn [snd trace length]. lia.
Qed.

Lemma gated_getJoystickDirection (sw : switch_t) (b : Board) (s : Sketch) :
  gated (getJoystickDirection sw) b s =
  (sub_u32 (time_at b (length (trace s))) (_timeLastAnalog (self s))
   <? _timeBetweenReads (self s)).
Proof.
  destruct s as [tr g]. cbn [trace self]. unfold gated, calls_made.
  destruct (Z.ltb_spec (sub_u32 (time_at b (length tr)) (_timeLastAnalog g))
                       (_timeBetweenReads g)) as [H|H].
  - rewrite (getJoystickDirection_gated _ _ _ _ H). cbn [snd trace length].
    apply one_call.
  - pose proof (getJoystickDirection_due sw _ _ _ H) as E. cbv zeta in E.
    rewrite E. cbn [snd]. apply Nat.eqb_neq.
    match goal with
    | |- context [getJoystickValue sw b ?s0] =>
        pose proof (getJoystickValue_calls sw b s0) as G
    end.
    cbn [trace length] in G. cbn [trace length]. lia.
Qed.

(** *** Repeated reads inside the gate window *)

Lemma repeat_gated (sw : switch_t) (b : Board) (g : MD_Gamepad) (k : nat) :
  forall tr : list event,
  (forall i, (i < k)%nat ->
     sub_u32 (time_at b (length tr + i)) (_timeLastAnalog g)
     < _timeBetweenReads g) ->
  let r := repeat_call (getJoystickValue sw) k b (mkSketch tr g) in
  fst r = repeat (cached sw g) k /\
  self (snd r) = g /\
  analog_reads (trace (snd r)) = analog_reads tr.
Proof.
  induction k as [|k IH]; intros tr Hwin r; subst r.
  - cbn. auto.
  - assert (H0 : sub_u32 (time_at b (length tr)) (_timeLastAnalog g)
                 < _timeBetweenReads g).
    { rewrite <- (Nat.add_0_r (length tr)). apply Hwin. lia. }
    specialize (IH (EvMillis (time_at b (length tr)) :: tr)).
    cbv zeta in IH.
    destruct (repeat_call (getJoystickValue sw) k b
                (mkSketch (EvMillis (time_at b (length tr)) :: tr) g))
      as [vs s'] eqn:E.
    assert (R : repeat_call (getJoystickValue sw) (S k) b (mkSketch tr g)
                = (cached sw g :: vs, s')).
    { cbn [repeat_call]. unfold bind.
      rewrite (getJoystickValue_gated sw b tr g H0), E. reflexivity. }
    rewrite R. cbn [fst snd] in IH |- *. cbn [repeat].
    destruct IH as (Hv & Hs & Ha).
    { intros i Hi. cbn [length].
      replace (S (length tr) + i)%nat with (length tr + S i)%nat by lia.
      apply Hwin. lia. }
    rewrite Hv, Hs, Ha. cbn [analog_reads]. auto.
Qed.

(** *** What the reading methods leave alone *)

Lemma getSwitch_config (b : Board) (s : Sketch) :
  config (self (snd (getSwitch b s))) = config (self s).
Proof.
  destruct s as [tr g].
  destruct (Z.lt_ge_cases
              (sub_u32 (time_at b (length tr)) (_timeLastDigital g))
              (_timeBetweenReads g)) as [H|H].
  - rewrite (getSwitch_gated b tr g H). reflexivity.
  - rewrite (getSwitch_due b tr g H), scan_self. reflexivity.
Qed.

Lemma getJoystickValue_config (sw : switch_t) (b : Board) (s : Sketch) :
  config (self (snd (getJoystickValue sw b s))) = config (self s).
Proof.
  destruct s as [tr g].
  destruct (Z.lt_ge_cases
              (sub_u32 (time_at b (length tr)) (_timeLastAnalog g))
              (_timeBetweenReads g)) as [H|H].
  - rewrite (getJoystickValue_gated sw b tr g H). reflexivity.
  - destruct sw;
      try (rewrite getJoystickValue_due_other by (congruence || exact H);
           reflexivity).
    + pose proof (getJoystickValue_due_X b tr g H) as E. cbv zeta in E.
      rewrite E. reflexivity.
    + pose proof (getJoystickValue_due_Y b tr g H) as E. cbv zeta in E.
      rewrite E. reflexivity.
Qed.

Lemma getJoystickDirection_config (sw : switch_t) (b : Board) (s : Sketch) :
  config (self (snd (getJoystickDirection sw b s))) = config (self s).
Proof.
  destruct s as [tr g].
  destruct (Z.lt_ge_cases
              (sub_u32 (time_at b (length tr)) (_timeLastAnalog g))
              (_timeBetweenReads g)) as [H|H].
  - rewrite (getJoystickDirection_gated sw b tr g H). reflexivity.
  - pose proof (getJoystickDirection_due sw b tr g H) as E. cbv zeta in E.
    rewrite E. cbn [snd]. rewrite getJoystickValue_config. reflexivity.
Qed.

Lemma config_interval (g g' : MD_Gamepad) :
  config g = config g' -> _timeBetweenReads g = _timeBetweenReads g'.
Proof. unfold config. intros H. injection H. auto. Qed.

Lemma config_deadband (g g' : MD_Gamepad) :
  config g = config g' -> _deadband g = _deadband g'.
Proof. unfold config. intros H. injection H. auto. Qed.

(** With a zero interval no gate test can succeed. *)
Lemma zero_interval_never_gates (now last : Z) : (sub_u32 now last <? 0) = false.
Proof. apply Z.ltb_ge. apply sub_u32_range. Qed.

(** *** Reads that are due *)

Lemma scan_trace_keeps (tbl : list pin2sw_t) (b : Board) (s : Sketch)
      (x : event) :
  In x (trace s) -> In x (trace (snd (scan tbl b s))).
Proof.
  revert s. induction tbl as [|e rest IH]; intros s Hx; [exact Hx|].
  cbn [scan]. run_gp.
  destruct (pin_high b (length (trace s)) (pin e)); cbn [Z.eqb HIGH LOW].
  - apply IH. cbn [trace]. right. exact Hx.
  - cbn [snd trace]. right. exact Hx.
Qed.

(** The scan of a non-empty table reads the pin of its first entry, at the
    scan's first primitive call. *)
Lemma scan_reads_first (e : pin2sw_t) (rest : list pin2sw_t) (b : Board)
      (s : Sketch) :
  In (EvDigitalRead (pin e)
        (if pin_high b (length (trace s)) (pin e) then HIGH else LOW))
     (trace (snd (scan (e :: rest) b s))).
Proof.
  cbn [scan]. run_gp.
  destruct (pin_high b (length (trace s)) (pin e)); cbn [Z.eqb HIGH LOW].
  - apply scan_trace_keeps. cbn [trace]. left. reflexivity.
  - cbn [snd trace]. left. reflexivity.
Qed.

Lemma scan_trace_bound (tbl : list pin2sw_t) (b : Board) (s : Sketch) :
  (length (trace (snd (scan tbl b s))) <= length (trace s) + length tbl)%nat.
Proof.
  revert s. induction tbl as [|e rest IH]; intros s.
  - cbn. lia.
  - cbn [scan]. run_gp.
    destruct (pin_high b (length (trace s)) (pin e)); cbn [Z.eqb HIGH LOW].
    + specialize (IH (mkSketch (EvDigitalRead (pin e) HIGH :: trace s)
                               (self s))).
      cbn [trace length] in IH |- *. lia.
    + cbn [snd trace length]. lia.
Qed.

(** A poll that is due, on pins that hold still during the scan. *)
Lemma getSwitch_due_steady (b : Board) (tr : list event) (g : MD_Gamepad)
      (lv : Z -> bool) :
  _timeBetweenReads g <= sub_u32 (time_at b (length tr)) (_timeLastDigital g) ->
  (forall k p, (k < 7)%nat -> pin_high b (2 + length tr + k) p = lv p) ->
  fst (getSwitch b (mkSketch tr g)) = first_low lv _pinDigital.
Proof.
  intros Hdue Hlv. rewrite (getSwitch_due b tr g Hdue).
  apply scan_steady. cbn [trace length]. intros k p Hk.
  rewrite <- (Hlv k p Hk). reflexivity.
Qed.

(** A direction query that is due at its own gate test and at the gate test
    of the [getJoystickValue] it calls. *)
Lemma getJoystickDirection_fresh_X (b : Board) (tr : list event)
      (g : MD_Gamepad) :
  _timeBetweenReads g <= sub_u32 (time_at b (length tr)) (_timeLastAnalog g) ->
  _timeBetweenReads g
  <= sub_u32 (time_at b (S (length tr))) (_timeLastAnalog g) ->
  let raw := adc b (3 + length tr) (PIN_X b) in
  let v := conditioned raw (_offsetX g) (_deadband g) in
  getJoystickDirection SW_X b (mkSketch tr g) =
  (Z.sgn v,
   mkSketch (EvAnalogRead (PIN_X b) raw :: EvMillis (time_at b (2 + length tr))
               :: EvMillis (time_at b (1 + length tr))
               :: EvMillis (time_at b (length tr)) :: tr)
            (mkGamepad (_timeLastDigital g) (time_at b (2 + length tr))
               (_timeBetweenReads g) (_deadband g) (_offsetX g) (_offsetY g)
               v (_valueY g))).
Proof.
  intros H1 H2 raw v.
  pose proof (getJoystickDirection_due SW_X b tr g H1) as E. cbv zeta in E.
  rewrite E.
  pose proof (getJoystickValue_due_X b
                (EvMillis (time_at b (length tr)) :: tr) g H2) as EX.
  cbv zeta in EX. rewrite EX. cbn [fst snd length].
  unfold time_at. rewrite wrap_u32_idem. reflexivity.
Qed.

Lemma getJoystickDirection_fresh_Y (b : Board) (tr : list event)
      (g : MD_Gamepad) :
  _timeBetweenReads g <= sub_u32 (time_at b (length tr)) (_timeLastAnalog g) ->
  _timeBetweenReads g
  <= sub_u32 (time_at b (S (length tr))) (_timeLastAnalog g) ->
  let raw := adc b (3 + length tr) (PIN_Y b) in
  let v := conditioned raw (_offsetY g) (_deadband g) in
  getJoystickDirection SW_Y b (mkSketch tr g) =
  (Z.sgn v,
   mkSketch (EvAnalogRead (PIN_Y b) raw :: EvMillis (time_at b (2 + length tr))
               :: EvMillis (time_at b (1 + length tr))
               :: EvMillis (time_at b (length tr)) :: tr)
            (mkGamepad (_timeLastDigital g) (time_at b (2 + length tr))
               (_timeBetweenReads g) (_deadband g) (_offsetX g) (_offsetY g)
               (_valueX g) v)).
Proof.
  intros H1 H2 raw v.
  pose proof (getJoystickDirection_due SW_Y b tr g H1) as E. cbv zeta in E.
  rewrite E.
  pose proof (getJoystickValue_due_Y b
                (EvMillis (time_at b (length tr)) :: tr) g H2) as EY.
  cbv zeta in EY. rewrite EY. cbn [fst snd length].
  unfold time_at. rewrite wrap_u32_idem. reflexivity.
Qed.

(** With a zero interval every gate test finds the read due. *)
Lemma zero_interval_due (now last interval : Z) :
  interval = 0 -> interval <= sub_u32 now last.
Proof. intros ->. apply sub_u32_range. Qed.

(** ** The methods on a simulated board *)

(** Right after [begin], with the stick at rest, the X axis reads 0. *)
Example rest_reads_zero :
  fst ((begin ;; getJoystickValue SW_X)
         (sim_board 1000 [] (fun _ => 512) (fun _ => 500))
         (mkSketch [] gamepad)) = 0.
Proof. vm_compute. reflexivity. Qed.

(** A stick pushed 200 counts below its rest position reads -200 and points
    in the negative direction. *)
Example pushed_down_reads_negative :
  let b := sim_board 1000 [] (fun n => if (n <? 11)%nat then 512 else 312)
                     (fun _ => 500) in
  fst ((begin ;; getJoystickValue SW_X) b (mkSketch [] gamepad)) = -200 /\
  fst ((begin ;; getJoystickDirection SW_X) b (mkSketch [] gamepad)) = -1.
Proof. vm_compute. split; reflexivity. Qed.

(** With switches B and C held down, the first poll after [begin] reports B,
    a second poll right after it reports nothing, and [anyKey] is true. *)
Example two_switches_down :
  let b := sim_board 1000 [3; 4] (fun _ => 512) (fun _ => 500) in
  fst ((begin ;; p <- getSwitch ;; q <- getSwitch ;; ret (p, q))
         b (mkSketch [] gamepad)) = (SW_B, SW_NONE) /\
  fst ((begin ;; anyKey) b (mkSketch [] gamepad)) = true.
Proof. vm_compute. split; reflexivity. Qed.

(** ** The claims *)

(** C1. The spec has [getJoystickValue] return 0 for every selector other
    than [SW_X] and [SW_Y], gate window or not.  The code does so only once
    the interval has elapsed; inside the gate window every selector other
    than [SW_X] is answered with the cached Y value.  Here, after [begin], a
    read of the Y axis returns 200, and a read with selector [SW_A] two
    milliseconds later returns 200 as well, not 0. *)
Theorem C1_other_selector_in_window_reads_Y_cache :
  fst ((begin ;;
        y <- getJoystickValue SW_Y ;;
        a <- getJoystickValue SW_A ;;
        ret (y, a)) stick_board (mkSketch [] gamepad)) = (200, 200).
Proof. vm_compute. reflexivity. Qed.

(** C2. Once the analog interval has elapsed, a read of the X (resp. Y) axis
    samples the axis pin and returns the sample minus the axis's zero offset,
    or 0 when the absolute value of that difference is strictly below the
    deadband; the result becomes the axis's cached value and the analog
    timestamp becomes the clock reading taken right after the gate test.
    The difference is assumed to fit the [int16_t] result, as it does for
    every pair of 10-bit samples. *)
Theorem C2_due_read_is_offset_and_deadband
        (b : Board) (tr : list event) (g : MD_Gamepad) :
  _timeBetweenReads g <= sub_u32 (time_at b (length tr)) (_timeLastAnalog g) ->
  let t1 := time_at b (length tr) in
  let now := time_at b (S (length tr)) in
  let rawX := adc b (S (S (length tr))) (PIN_X b) in
  let rawY := adc b (S (S (length tr))) (PIN_Y b) in
  (- 2 ^ 15 < rawX - _offsetX g < 2 ^ 15 ->
   let v := deadbanded (rawX - _offsetX g) (_deadband g) in
   getJoystickValue SW_X b (mkSketch tr g) =
   (v, mkSketch
         (EvAnalogRead (PIN_X b) rawX :: EvMillis now :: EvMillis t1 :: tr)
         (mkGamepad (_timeLastDigital g) now (_timeBetweenReads g)
            (_deadband g) (_offsetX g) (_offsetY g) v (_valueY g))))
  /\
  (- 2 ^ 15 < rawY - _offsetY g < 2 ^ 15 ->
   let v := deadbanded (rawY - _offsetY g) (_deadband g) in
   getJoystickValue SW_Y b (mkSketch tr g) =
   (v, mkSketch
         (EvAnalogRead (PIN_Y b) rawY :: EvMillis now :: EvMillis t1 :: tr)
         (mkGamepad (_timeLastDigital g) now (_timeBetweenReads g)
            (_deadband g) (_offsetX g) (_offsetY g) (_valueX g) v))).
Proof.
  intros Hdue t1 now rawX rawY. split; intros Hfit v.
  - pose proof (getJoystickValue_due_X b tr g Hdue) as E. cbv zeta in E.
    rewrite E. fold rawX. rewrite conditioned_exact by lia.
    fold v. fold now. fold t1. unfold now at 2, time_at.
    rewrite wrap_u32_idem. reflexivity.
  - pose proof (getJoystickValue_due_Y b tr g Hdue) as E. cbv zeta in E.
    rewrite E. fold rawY. rewrite conditioned_exact by lia.
    fold v. fold now. fold t1. unfold now at 2, time_at.
    rewrite wrap_u32_idem. reflexivity.
Qed.

(** The spec's examples: with offset 512 and deadband 5 a sample of 522 reads
    10, and with offset 500 a sample of 503 reads 0. *)
Lemma C2_witness :
  let b := sim_board 1000 [] (fun _ => 522) (fun _ => 503) in
  let g := mkGamepad 0 0 100 5 512 500 0 0 in
  fst (getJoystickValue SW_X b (mkSketch [] g)) = 10 /\
  fst (getJoystickValue SW_Y b (mkSketch [] g)) = 0.
Proof.
  intros b g.
  assert (Hdue : _timeBetweenReads g
                 <= sub_u32 (time_at b (length (@nil event)))
                            (_timeLastAnalog g))
    by (vm_compute; discriminate).
  destruct (C2_due_read_is_offset_and_deadband b [] g Hdue) as [HX HY].
  split.
  - rewrite HX; [reflexivity | vm_compute; split; reflexivity].
  - rewrite HY; [reflexivity | vm_compute; split; reflexivity].
Defined.

(** C3. While the time elapsed since the last digital sample is strictly
    below the interval, [getSwitch] returns [SW_NONE] whatever the pins show,
    reads no pin and leaves the object, the digital timestamp included, as it
    was.  Otherwise it stores the clock reading taken right after the gate
    test as the digital timestamp and only then scans the pins; the scan
    changes nothing of the object. *)
Theorem C3_getSwitch_rate_limit (b : Board) (tr : list event) (g : MD_Gamepad) :
  (sub_u32 (time_at b (length tr)) (_timeLastDigital g) < _timeBetweenReads g ->
   getSwitch b (mkSketch tr g) =
   (SW_NONE, mkSketch (EvMillis (time_at b (length tr)) :: tr) g))
  /\
  (_timeBetweenReads g <= sub_u32 (time_at b (length tr)) (_timeLastDigital g) ->
   let now := time_at b (S (length tr)) in
   let stamped :=
     mkGamepad now (_timeLastAnalog g) (_timeBetweenReads g) (_deadband g)
               (_offsetX g) (_offsetY g) (_valueX g) (_valueY g) in
   getSwitch b (mkSketch tr g) =
   scan _pinDigital b
        (mkSketch (EvMillis now :: EvMillis (time_at b (length tr)) :: tr)
                  stamped)
   /\ self (snd (getSwitch b (mkSketch tr g))) = stamped).
Proof.
  split.
  - apply getSwitch_gated.
  - intros Hdue now stamped.
    assert (Hs : set_timeLastDigital now g = stamped).
    { unfold set_timeLastDigital, stamped, now, time_at.
      rewrite wrap_u32_idem. reflexivity. }
    rewrite (getSwitch_due b tr g Hdue). fold now. rewrite Hs.
    split; [reflexivity | apply scan_self].
Qed.

(** Pins B and C are held low.  A second poll 3 ms after a poll that reported
    B is answered with [SW_NONE]; a poll 1000 ms after start-up stamps the
    second clock reading, 1001. *)
Lemma C3_witness :
  let b := sim_board 1000 [3; 4] (fun _ => 512) (fun _ => 500) in
  fst (getSwitch b (mkSketch [] (mkGamepad 997 0 100 5 512 500 0 0)))
  = SW_NONE /\
  _timeLastDigital (self (snd (getSwitch b (mkSketch [] gamepad)))) = 1001.
Proof.
  intros b. split.
  - destruct (C3_getSwitch_rate_limit b []
                (mkGamepad 997 0 100 5 512 500 0 0)) as [H _].
    rewrite H; [reflexivity | vm_compute; reflexivity].
  - destruct (C3_getSwitch_rate_limit b [] gamepad) as [_ H].
    destruct H as [_ H]; [vm_compute; discriminate |].
    rewrite H. reflexivity.
Defined.

(** C4. Once the digital interval has elapsed, [getSwitch] reports the first
    entry of the table, in the order A, B, C, D, E, F, K, whose pin reads
    low at its turn in the scan: pins later in the table do not matter, and
    when every pin reads high the result is [SW_NONE].  The scan starts two
    primitive calls after the call of [getSwitch] (the two clock readings)
    and reads one pin per call. *)
Theorem C4_getSwitch_first_low (b : Board) (tr : list event) (g : MD_Gamepad) :
  _timeBetweenReads g <= sub_u32 (time_at b (length tr)) (_timeLastDigital g) ->
  let r := fst (getSwitch b (mkSketch tr g)) in
  map sw _pinDigital = [SW_A; SW_B; SW_C; SW_D; SW_E; SW_F; SW_K]
  /\
  (forall i e,
      nth_error _pinDigital i = Some e ->
      pin_high b (length tr + 2 + i) (pin e) = false ->
      (forall j e', (j < i)%nat -> nth_error _pinDigital j = Some e' ->
                    pin_high b (length tr + 2 + j) (pin e') = true) ->
      r = sw e)
  /\
  ((forall j e', nth_error _pinDigital j = Some e' ->
                 pin_high b (length tr + 2 + j) (pin e') = true) ->
   r = SW_NONE)
  /\
  (forall lv : Z -> bool,
      (forall k p, (k < 7)%nat -> pin_high b (length tr + 2 + k) p = lv p) ->
      r = first_low lv _pinDigital).
Proof.
  intros Hdue r. subst r. rewrite (getSwitch_due b tr g Hdue).
  split; [reflexivity|]. split; [|split].
  - intros i e Hi Hlow Hbefore.
    apply (scan_first_low _ _ _ i); cbn [trace length].
    + exact Hi.
    + rewrite <- Hlow. f_equal. lia.
    + intros j e' Hj Hn. rewrite <- (Hbefore j e' Hj Hn). f_equal. lia.
  - intros Hall. apply scan_none. cbn [trace length].
    intros j e' Hn. rewrite <- (Hall j e' Hn). f_equal. lia.
  - intros lv Hlv. apply scan_steady. cbn [trace length].
    intros k p Hk. rewrite <- (Hlv k p Hk). f_equal. lia.
Qed.

(** With the pins of B and C both low the poll reports B. *)
Lemma C4_witness :
  fst (getSwitch (sim_board 1000 [3; 4] (fun _ => 512) (fun _ => 500))
                 (mkSketch [] gamepad)) = SW_B.
Proof.
  assert (Hdue : _timeBetweenReads gamepad
                 <= sub_u32 (time_at (sim_board 1000 [3; 4] (fun _ => 512)
                                                (fun _ => 500))
                                     (length (@nil event)))
                            (_timeLastDigital gamepad))
    by (vm_compute; discriminate).
  destruct (C4_getSwitch_first_low _ [] gamepad Hdue) as (_ & _ & _ & H).
  rewrite (H (fun p => negb (existsb (Z.eqb p) [3; 4]))).
  - reflexivity.
  - intros k p _. reflexivity.
Defined.

(** C5. [getJoystickDirection] returns -1, 0 or +1.  Inside the analog gate
    window it returns 0 and leaves the object as it was, whatever the cached
    values are; otherwise it returns the sign of what [getJoystickValue]
    returns when called right after the gate test, and ends in the state
    that call ends in. *)
Theorem C5_direction_is_gated_sign
        (sw : switch_t) (b : Board) (tr : list event) (g : MD_Gamepad) :
  let r := getJoystickDirection sw b (mkSketch tr g) in
  let after_test := mkSketch (EvMillis (time_at b (length tr)) :: tr) g in
  (fst r = -1 \/ fst r = 0 \/ fst r = 1)
  /\
  (sub_u32 (time_at b (length tr)) (_timeLastAnalog g) < _timeBetweenReads g ->
   r = (0, after_test))
  /\
  (_timeBetweenReads g <= sub_u32 (time_at b (length tr)) (_timeLastAnalog g) ->
   r = (Z.sgn (fst (getJoystickValue sw b after_test)),
        snd (getJoystickValue sw b after_test))).
Proof.
  intros r after_test. subst r after_test.
  split; [|split].
  - destruct (Z.lt_ge_cases
                (sub_u32 (time_at b (length tr)) (_timeLastAnalog g))
                (_timeBetweenReads g)) as [H|H].
    + rewrite (getJoystickDirection_gated sw b tr g H). cbn. auto.
    + pose proof (getJoystickDirection_due sw b tr g H) as E.
      cbv zeta in E. rewrite E. cbn [fst].
      match goal with |- context [Z.sgn ?v] => pose proof (Z.sgn_spec v) end.
      lia.
  - apply getJoystickDirection_gated.
  - intros H. pose proof (getJoystickDirection_due sw b tr g H) as E.
    cbv zeta in E. exact E.
Qed.

(** With a cached X value of 200, a direction query 3 ms after the last
    analog sample reads 0; one 1000 ms after it, with the stick at 712
    against an offset of 512, reads +1. *)
Lemma C5_witness :
  let b := sim_board 1000 [] (fun _ => 712) (fun _ => 500) in
  fst (getJoystickDirection SW_X b
         (mkSketch [] (mkGamepad 0 997 100 5 512 500 200 0))) = 0 /\
  fst (getJoystickDirection SW_X b
         (mkSketch [] (mkGamepad 0 0 100 5 512 500 200 0))) = 1.
Proof.
  intros b. split.
  - destruct (C5_direction_is_gated_sign SW_X b []
                (mkGamepad 0 997 100 5 512 500 200 0)) as (_ & H & _).
    rewrite H; [reflexivity | vm_compute; reflexivity].
  - destruct (C5_direction_is_gated_sign SW_X b []
                (mkGamepad 0 0 100 5 512 500 200 0)) as (_ & _ & H).
    rewrite H; [vm_compute; reflexivity | vm_compute; discriminate].
Defined.

(** C6. Inside the analog gate window [getJoystickValue] with the X (resp.
    Y) selector returns the cached X (resp. Y) value; it only reads the
    clock, takes no analog sample and changes no field.  Hence any number of
    consecutive calls that all fall inside the window return the same cached
    value and leave the object as it was. *)
Theorem C6_gated_read_returns_cache
        (b : Board) (tr : list event) (g : MD_Gamepad) :
  (sub_u32 (time_at b (length tr)) (_timeLastAnalog g) < _timeBetweenReads g ->
   getJoystickValue SW_X b (mkSketch tr g) =
   (_valueX g, mkSketch (EvMillis (time_at b (length tr)) :: tr) g) /\
   getJoystickValue SW_Y b (mkSketch tr g) =
   (_valueY g, mkSketch (EvMillis (time_at b (length tr)) :: tr) g))
  /\
  (forall k : nat,
      (forall i, (i < k)%nat ->
         sub_u32 (time_at b (length tr + i)) (_timeLastAnalog g)
         < _timeBetweenReads g) ->
      let rx := repeat_call (getJoystickValue SW_X) k b (mkSketch tr g) in
      let ry := repeat_call (getJoystickValue SW_Y) k b (mkSketch tr g) in
      (fst rx = repeat (_valueX g) k /\ self (snd rx) = g /\
       analog_reads (trace (snd rx)) = analog_reads tr) /\
      (fst ry = repeat (_valueY g) k /\ self (snd ry) = g /\
       analog_reads (trace (snd ry)) = analog_reads tr)).
Proof.
  split.
  - intros H. split.
    + apply (getJoystickValue_gated SW_X b tr g H).
    + apply (getJoystickValue_gated SW_Y b tr g H).
  - intros k Hwin rx ry. split.
    + apply (repeat_gated SW_X b g k tr Hwin).
    + apply (repeat_gated SW_Y b g k tr Hwin).
Qed.

(** Three reads of each axis within 5 ms of a sample taken at 997 ms. *)
Lemma C6_witness :
  let b := sim_board 1000 [] (fun _ => 712) (fun _ => 300) in
  let g := mkGamepad 0 997 100 5 512 500 37 (-12) in
  fst (repeat_call (getJoystickValue SW_X) 3 b (mkSketch [] g)) = [37; 37; 37]
  /\ fst (repeat_call (getJoystickValue SW_Y) 3 b (mkSketch [] g))
     = [-12; -12; -12].
Proof.
  intros b g.
  destruct (C6_gated_read_returns_cache b [] g) as [_ H].
  destruct (H 3%nat) as [(HX & _) (HY & _)].
  - intros i Hi.
    destruct i as [|[|[|i]]]; [vm_compute; reflexivity .. | lia].
  - split; [exact HX | exact HY].
Defined.

(** C7. [setReadDelay] stores every 16-bit unsigned value, 0 included.  With
    the interval at 0 no call of [getSwitch], [getJoystickDirection] or
    [getJoystickValue] is gated, and each leaves the interval at 0, so every
    call samples.  In every state with a zero interval [getSwitch] stamps the
    fresh clock reading and scans the pins, the pin of A first, and
    [getJoystickValue] and [getJoystickDirection] with the X or Y selector
    take a new analog sample of that axis and return its conditioned value,
    resp. the sign of it.  In particular two immediately consecutive calls
    of one method each sample anew. *)
Theorem C7_zero_interval_disables_gating (b : Board) (s : Sketch) :
  (forall d, 0 <= d < 2 ^ 16 ->
             _timeBetweenReads (self (snd (setReadDelay d b s))) = d /\
             trace (snd (setReadDelay d b s)) = trace s)
  /\
  (forall s0 : Sketch,
      _timeBetweenReads (self s0) = 0 ->
      (gated getSwitch b s0 = false /\
       _timeBetweenReads (self (snd (getSwitch b s0))) = 0) /\
      (forall sw,
          (gated (getJoystickDirection sw) b s0 = false /\
           _timeBetweenReads (self (snd (getJoystickDirection sw b s0))) = 0)
          /\
          (gated (getJoystickValue sw) b s0 = false /\
           _timeBetweenReads (self (snd (getJoystickValue sw b s0))) = 0)))
  /\
  (let n := length (trace s) in
   let g := self s in
   let raw1 := adc b (2 + n) (PIN_X b) in
   let raw2 := adc b (5 + n) (PIN_X b) in
   let r := (setReadDelay 0 ;;
             v1 <- getJoystickValue SW_X ;;
             v2 <- getJoystickValue SW_X ;;
             ret (v1, v2)) b s in
   fst r = (conditioned raw1 (_offsetX g) (_deadband g),
            conditioned raw2 (_offsetX g) (_deadband g)) /\
   trace (snd r) =
   EvAnalogRead (PIN_X b) raw2 :: EvMillis (time_at b (4 + n))
     :: EvMillis (time_at b (3 + n))
     :: EvAnalogRead (PIN_X b) raw1 :: EvMillis (time_at b (1 + n))
     :: EvMillis (time_at b n) :: trace s)
  /\
  (forall (tr0 : list event) (g0 : MD_Gamepad),
      _timeBetweenReads g0 = 0 ->
      let n := length tr0 in
      let s0 := mkSketch tr0 g0 in
      let t0 := time_at b n in
      let t1 := time_at b (1 + n) in
      let t2 := time_at b (2 + n) in
      (getSwitch b s0 =
       scan _pinDigital b
            (mkSketch (EvMillis t1 :: EvMillis t0 :: tr0)
               (mkGamepad t1 (_timeLastAnalog g0) (_timeBetweenReads g0)
                  (_deadband g0) (_offsetX g0) (_offsetY g0)
                  (_valueX g0) (_valueY g0)))
       /\ In (EvDigitalRead PIN_A
                (if pin_high b (2 + n) PIN_A then HIGH else LOW))
             (trace (snd (getSwitch b s0)))
       /\ _timeLastDigital (self (snd (getSwitch b s0))) = t1
       /\ forall lv : Z -> bool,
           (forall k p, (k < 7)%nat -> pin_high b (2 + n + k) p = lv p) ->
           fst (getSwitch b s0) = first_low lv _pinDigital)
      /\
      (let rawX := adc b (2 + n) (PIN_X b) in
       let rawY := adc b (2 + n) (PIN_Y b) in
       let vX := conditioned rawX (_offsetX g0) (_deadband g0) in
       let vY := conditioned rawY (_offsetY g0) (_deadband g0) in
       getJoystickValue SW_X b s0 =
       (vX, mkSketch
              (EvAnalogRead (PIN_X b) rawX :: EvMillis t1 :: EvMillis t0 :: tr0)
              (mkGamepad (_timeLastDigital g0) t1 (_timeBetweenReads g0)
                 (_deadband g0) (_offsetX g0) (_offsetY g0) vX (_valueY g0)))
       /\
       getJoystickValue SW_Y b s0 =
       (vY, mkSketch
              (EvAnalogRead (PIN_Y b) rawY :: EvMillis t1 :: EvMillis t0 :: tr0)
              (mkGamepad (_timeLastDigital g0) t1 (_timeBetweenReads g0)
                 (_deadband g0) (_offsetX g0) (_offsetY g0) (_valueX g0) vY)))
      /\
      (let rawX := adc b (3 + n) (PIN_X b) in
       let rawY := adc b (3 + n) (PIN_Y b) in
       let vX := conditioned rawX (_offsetX g0) (_deadband g0) in
       let vY := conditioned rawY (_offsetY g0) (_deadband g0) in
       getJoystickDirection SW_X b s0 =
       (Z.sgn vX,
        mkSketch
          (EvAnalogRead (PIN_X b) rawX :: EvMillis t2 :: EvMillis t1
             :: EvMillis t0 :: tr0)
          (mkGamepad (_timeLastDigital g0) t2 (_timeBetweenReads g0)
             (_deadband g0) (_offsetX g0) (_offsetY g0) vX (_valueY g0)))
       /\
       getJoystickDirection SW_Y b s0 =
       (Z.sgn vY,
        mkSketch
          (EvAnalogRead (PIN_Y b) rawY :: EvMillis t2 :: EvMillis t1
             :: EvMillis t0 :: tr0)
          (mkGamepad (_timeLastDigital g0) t2 (_timeBetweenReads g0)
             (_deadband g0) (_offsetX g0) (_offsetY g0) (_valueX g0) vY))))
  /\
  (forall lv : Z -> bool,
      (forall k p, (k < 18)%nat ->
                   pin_high b (length (trace s) + k) p = lv p) ->
      fst ((setReadDelay 0 ;;
            p1 <- getSwitch ;;
            p2 <- getSwitch ;;
            ret (p1, p2)) b s)
      = (first_low lv _pinDigital, first_low lv _pinDigital))
  /\
  (let n := length (trace s) in
   let g := self s in
   let raw1 := adc b (3 + n) (PIN_X b) in
   let raw2 := adc b (7 + n) (PIN_X b) in
   let r := (setReadDelay 0 ;;
             d1 <- getJoystickDirection SW_X ;;
             d2 <- getJoystickDirection SW_X ;;
             ret (d1, d2)) b s in
   fst r = (Z.sgn (conditioned raw1 (_offsetX g) (_deadband g)),
            Z.sgn (conditioned raw2 (_offsetX g) (_deadband g))) /\
   analog_reads (trace (snd r)) = (2 + analog_reads (trace s))%nat).
Proof.
  assert (Hdue : forall (tr' : list event) g',
             _timeBetweenReads g' = 0 ->
             _timeBetweenReads g'
             <= sub_u32 (time_at b (length tr')) (_timeLastAnalog g')).
  { intros tr' g' E. rewrite E. apply sub_u32_range. }
  split; [|split; [|split; [|split; [|split]]]].
  - intros d Hd. split; [|reflexivity].
    cbn. apply wrap_u16_small. exact Hd.
  - intros s0 H0. split; [split|intros sw; split; split].
    + rewrite gated_getSwitch, H0. apply zero_interval_never_gates.
    + rewrite (config_interval _ _ (getSwitch_config b s0)). exact H0.
    + rewrite gated_getJoystickDirection, H0.
      apply zero_interval_never_gates.
    + rewrite (config_interval _ _ (getJoystickDirection_config sw b s0)).
      exact H0.
    + rewrite gated_getJoystickValue, H0. apply zero_interval_never_gates.
    + rewrite (config_interval _ _ (getJoystickValue_config sw b s0)).
      exact H0.
  - destruct s as [tr g0]. intros n g raw1 raw2 r.
    cbn [trace self] in n, g. subst n g.
    subst r. unfold bind, setReadDelay, update, ret. cbn [trace self].
    pose proof (getJoystickValue_due_X b tr (set_timeBetweenReads 0 g0)
                  (Hdue tr (set_timeBetweenReads 0 g0) eq_refl)) as E1.
    cbv zeta in E1. rewrite E1.
    match goal with
    | |- context [getJoystickValue SW_X b (mkSketch ?t ?g1)] =>
        pose proof (getJoystickValue_due_X b t g1 (Hdue t g1 eq_refl)) as E2
    end.
    cbv zeta in E2. rewrite E2.
    cbn [fst snd trace self length _offsetX _deadband set_timeBetweenReads].
    split; reflexivity.
  - intros tr0 g0 H0 n s0 t0 t1 t2. subst s0.
    assert (HD : _timeBetweenReads g0
                 <= sub_u32 (time_at b (length tr0)) (_timeLastDigital g0))
      by (apply zero_interval_due; exact H0).
    assert (Hst : set_timeLastDigital (time_at b (S (length tr0))) g0
                  = mkGamepad t1 (_timeLastAnalog g0) (_timeBetweenReads g0)
                      (_deadband g0) (_offsetX g0) (_offsetY g0)
                      (_valueX g0) (_valueY g0)).
    { unfold set_timeLastDigital, t1, n, time_at. rewrite wrap_u32_idem.
      reflexivity. }
    split; [|split].
    + rewrite (getSwitch_due b tr0 g0 HD), Hst.
      split; [reflexivity|]. split; [|split].
      * match goal with
        | |- In _ (trace (snd (scan _ b ?s1))) =>
            exact (scan_reads_first (mkPin2sw PIN_A SW_A)
                     (tl _pinDigital) b s1)
        end.
      * rewrite scan_self. reflexivity.
      * intros lv Hlv. apply scan_steady. cbn [trace length].
        intros k p Hk. rewrite <- (Hlv k p Hk). reflexivity.
    + intros rawX rawY vX vY.
      pose proof (getJoystickValue_due_X b tr0 g0 (Hdue tr0 g0 H0)) as EX.
      pose proof (getJoystickValue_due_Y b tr0 g0 (Hdue tr0 g0 H0)) as EY.
      cbv zeta in EX, EY. rewrite EX, EY.
      unfold t1, n, time_at. rewrite wrap_u32_idem. split; reflexivity.
    + intros rawX rawY vX vY.
      pose proof (getJoystickDirection_fresh_X b tr0 g0 (Hdue tr0 g0 H0)
                    (zero_interval_due _ _ _ H0)) as EX.
      pose proof (getJoystickDirection_fresh_Y b tr0 g0 (Hdue tr0 g0 H0)
                    (zero_interval_due _ _ _ H0)) as EY.
      cbv zeta in EX, EY. rewrite EX, EY. split; reflexivity.
  - destruct s as [tr g0]. cbn [trace]. intros lv Hlv.
    unfold bind at 1. unfold setReadDelay, update. cbn [trace self].
    set (g1 := set_timeBetweenReads 0 g0).
    assert (HD1 : _timeBetweenReads g1
                  <= sub_u32 (time_at b (length tr)) (_timeLastDigital g1))
      by (apply zero_interval_due; reflexivity).
    unfold bind at 1.
    destruct (getSwitch b (mkSketch tr g1)) as [p1 s1] eqn:E1.
    assert (Hp1 : p1 = first_low lv _pinDigital).
    { change p1 with (fst (p1, s1)). rewrite <- E1.
      apply (getSwitch_due_steady b tr g1 lv HD1).
      intros k p Hk.
      replace (2 + length tr + k)%nat with (length tr + (2 + k))%nat by lia.
      apply Hlv. lia. }
    assert (Hlen : (length tr + 2 < length (trace s1)
                    /\ length (trace s1) <= length tr + 9)%nat).
    { change s1 with (snd (p1, s1)). rewrite <- E1.
      rewrite (getSwitch_due b tr g1 HD1).
      match goal with
      | |- context [scan ?t b ?s0] =>
          pose proof (scan_trace_grows t b s0 ltac:(discriminate)) as G1;
          pose proof (scan_trace_bound t b s0) as G2
      end.
      cbn [trace length _pinDigital] in G1, G2. lia. }
    assert (Hint : _timeBetweenReads (self s1) = 0).
    { change s1 with (snd (p1, s1)). rewrite <- E1.
      rewrite (config_interval _ _ (getSwitch_config b (mkSketch tr g1))).
      reflexivity. }
    destruct s1 as [tr1 g2]. cbn [trace self] in Hlen, Hint.
    unfold bind, ret.
    destruct (getSwitch b (mkSketch tr1 g2)) as [p2 s2] eqn:E2.
    cbn [fst]. f_equal; [exact Hp1|].
    change p2 with (fst (p2, s2)). rewrite <- E2.
    apply (getSwitch_due_steady b tr1 g2 lv).
    + apply zero_interval_due. exact Hint.
    + intros k p Hk.
      replace (2 + length tr1 + k)%nat
        with (length tr + (2 + length tr1 + k - length tr))%nat by lia.
      apply Hlv. lia.
  - destruct s as [tr g0]. intros n g raw1 raw2 r.
    cbn [trace self] in n, g. subst n g.
    subst r. unfold bind, setReadDelay, update, ret. cbn [trace self].
    pose proof (getJoystickDirection_fresh_X b tr (set_timeBetweenReads 0 g0)
                  (Hdue tr (set_timeBetweenReads 0 g0) eq_refl)
                  (zero_interval_due _ _ _ eq_refl)) as E1.
    cbv zeta in E1. rewrite E1.
    match goal with
    | |- context [getJoystickDirection SW_X b (mkSketch ?t ?g1)] =>
        pose proof (getJoystickDirection_fresh_X b t g1 (Hdue t g1 eq_refl)
                      (zero_interval_due _ _ _ eq_refl)) as E2
    end.
    cbv zeta in E2. rewrite E2.
    cbn [fst snd trace self length _offsetX _deadband set_timeBetweenReads
         analog_reads Nat.add].
    split; reflexivity.
Qed.

(** A delay of 0 is stored, and a poll made 0 ms after the last one is then
    not gated: with the pin of B held low, two polls in a row both report
    B. *)
Lemma C7_witness :
  let b := sim_board 1000 [3] (fun _ => 512) (fun _ => 500) in
  let s := mkSketch [] (mkGamepad 1000 1000 100 5 512 500 0 0) in
  _timeBetweenReads (self (snd (setReadDelay 0 b s))) = 0 /\
  gated getSwitch b (snd (setReadDelay 0 b s)) = false /\
  fst ((setReadDelay 0 ;; p1 <- getSwitch ;; p2 <- getSwitch ;; ret (p1, p2))
         b s) = (SW_B, SW_B).
Proof.
  intros b s.
  destruct (C7_zero_interval_disables_gating b s)
    as (Hset & Hfree & _ & _ & Hpolls & _).
  destruct (Hset 0) as [H0 _]; [lia|].
  split; [exact H0|]. split.
  - destruct (Hfree (snd (setReadDelay 0 b s)) H0) as [[H _] _]. exact H.
  - rewrite (Hpolls (fun p => negb (existsb (Z.eqb p) [3]))).
    + reflexivity.
    + intros k p _. reflexivity.
Defined.

(** *** The public interface as a whole *)

Lemma begin_config (b : Board) (s : Sketch) :
  _timeBetweenReads (self (snd (begin b s))) = DEFAULT_DELAY /\
  _deadband (self (snd (begin b s))) = DEFAULT_DB.
Proof. destruct s as [tr g]. split; reflexivity. Qed.

Lemma drop_result_snd {A : Type} (m : M A) (b : Board) (s : Sketch) :
  snd ((_ <- m ;; ret tt) b s) = snd (m b s).
Proof. unfold bind, ret. destruct (m b s). reflexivity. Qed.

Lemma anyKey_snd (b : Board) (s : Sketch) :
  snd (anyKey b s) = snd (getSwitch b s).
Proof. unfold anyKey, bind, ret. destruct (getSwitch b s). reflexivity. Qed.

Lemma perform_config (c : call) (b : Board) (s : Sketch) :
  let s' := snd (perform c b s) in
  _timeBetweenReads (self s') = configure (_timeBetweenReads (self s)) c /\
  (_deadband (self s) = DEFAULT_DB -> _deadband (self s') = DEFAULT_DB).
Proof.
  destruct c; cbn [perform configure]; cbv zeta;
    try rewrite drop_result_snd; try rewrite anyKey_snd.
  - destruct (begin_config b s) as [H1 H2]. rewrite H1, H2. auto.
  - destruct s as [tr g]. cbn. auto.
  - pose proof (getSwitch_config b s) as H.
    rewrite (config_interval _ _ H), (config_deadband _ _ H). auto.
  - pose proof (getSwitch_config b s) as H.
    rewrite (config_interval _ _ H), (config_deadband _ _ H). auto.
  - pose proof (getJoystickDirection_config sw0 b s) as H.
    rewrite (config_interval _ _ H), (config_deadband _ _ H). auto.
  - pose proof (getJoystickValue_config sw0 b s) as H.
    rewrite (config_interval _ _ H), (config_deadband _ _ H). auto.
Qed.

Lemma perform_all_config (cs : list call) (b : Board) :
  forall s : Sketch,
  let s' := snd (perform_all cs b s) in
  _timeBetweenReads (self s')
  = fold_left configure cs (_timeBetweenReads (self s)) /\
  (_deadband (self s) = DEFAULT_DB -> _deadband (self s') = DEFAULT_DB).
Proof.
  induction cs as [|c rest IH]; intros s; cbv zeta.
  - cbn. auto.
  - cbn [perform_all fold_left]. unfold bind.
    destruct (perform c b s) as [u s1] eqn:E.
    pose proof (perform_config c b s) as Hc. cbv zeta in Hc.
    rewrite E in Hc. cbn [snd] in Hc. destruct Hc as [Hi Hd].
    specialize (IH s1). cbv zeta in IH. destruct IH as [IHi IHd].
    rewrite IHi, Hi. auto.
Qed.

Lemma after_begin_config (cs : list call) (b : Board) (s : Sketch) :
  let s' := snd ((begin ;; perform_all cs) b s) in
  _timeBetweenReads (self s') = configured cs /\
  _deadband (self s') = DEFAULT_DB.
Proof.
  cbv zeta. unfold bind. destruct (begin b s) as [u s0] eqn:E.
  destruct (begin_config b s) as [H1 H2]. rewrite E in H1, H2.
  cbn [snd] in H1, H2.
  pose proof (perform_all_config cs b s0) as H. cbv zeta in H.
  destruct H as [Hi Hd]. rewrite Hi, H1. auto.
Qed.

(** C8, as the spec states it, fails on the deadband: the class has no
    member that sets it.  After [begin], whatever public members the caller
    invokes afterwards, the deadband is [DEFAULT_DB]. *)
Lemma C8_deadband_cannot_be_changed :
  ~ exists (b : Board) (s : Sketch) (cs : list call),
      _deadband (self (snd ((begin ;; perform_all cs) b s))) <> DEFAULT_DB.
Proof.
  intros (b & s & cs & H). apply H.
  apply (after_begin_config cs b s).
Qed.

(** C8, amended.  After [begin] the caller can change the minimum read
    interval with [setReadDelay], and every later read of either domain is
    gated on the interval configured last ([DEFAULT_DELAY] when none was set
    since [begin]).  The deadband is not configurable: it is [DEFAULT_DB]
    after [begin] and after every sequence of public calls, and every analog
    sample is conditioned with it. *)
Theorem C8_interval_configurable_deadband_fixed
        (b : Board) (s : Sketch) (cs : list call) :
  let s' := snd ((begin ;; perform_all cs) b s) in
  let n := length (trace s') in
  let g := self s' in
  (forall d, 0 <= d < 2 ^ 16 -> configured (cs ++ [CallSetReadDelay d]) = d)
  /\ _timeBetweenReads g = configured cs
  /\ _deadband g = DEFAULT_DB
  /\ gated getSwitch b s'
     = (sub_u32 (time_at b n) (_timeLastDigital g) <? configured cs)
  /\ (forall sw,
         gated (getJoystickValue sw) b s'
         = (sub_u32 (time_at b n) (_timeLastAnalog g) <? configured cs) /\
         gated (getJoystickDirection sw) b s'
         = (sub_u32 (time_at b n) (_timeLastAnalog g) <? configured cs))
  /\ (configured cs <= sub_u32 (time_at b n) (_timeLastAnalog g) ->
      fst (getJoystickValue SW_X b s')
      = conditioned (adc b (2 + n) (PIN_X b)) (_offsetX g) DEFAULT_DB /\
      fst (getJoystickValue SW_Y b s')
      = conditioned (adc b (2 + n) (PIN_Y b)) (_offsetY g) DEFAULT_DB).
Proof.
  intros s' n g.
  destruct (after_begin_config cs b s) as [Hi Hd].
  fold s' in Hi, Hd. fold g in Hi, Hd.
  split; [|split; [exact Hi | split; [exact Hd | split; [|split]]]].
  - intros d Hd'. unfold configured. rewrite fold_left_app. cbn.
    apply wrap_u16_small. exact Hd'.
  - rewrite gated_getSwitch. fold n g. rewrite Hi. reflexivity.
  - intros sw. rewrite gated_getJoystickValue, gated_getJoystickDirection.
    fold n g. rewrite Hi. auto.
  - intros Hdue. rewrite <- Hi in Hdue. subst n g.
    destruct s' as [tr' g']. cbn [trace self] in *.
    pose proof (getJoystickValue_due_X b tr' g' Hdue) as EX.
    pose proof (getJoystickValue_due_Y b tr' g' Hdue) as EY.
    cbv zeta in EX, EY. rewrite EX, EY, Hd. auto.
Qed.

(** A delay of 250 set after [begin] is the configured interval, and a read
    of the X axis made when that interval has elapsed is conditioned with
    the default deadband. *)
Lemma C8_witness :
  let b := sim_board 1000 [] (fun _ => 512) (fun _ => 500) in
  configured [CallGetSwitch; CallSetReadDelay 250] = 250 /\
  fst (getJoystickValue SW_X b
         (snd ((begin ;; perform_all [CallSetReadDelay 250])
                 b (mkSketch [] gamepad)))) = 0.
Proof.
  intros b.
  split.
  - destruct (C8_interval_configurable_deadband_fixed
                b (mkSketch [] gamepad) [CallGetSwitch]) as (H & _).
    apply (H 250). lia.
  - destruct (C8_interval_configurable_deadband_fixed
                b (mkSketch [] gamepad) [CallSetReadDelay 250])
      as (_ & _ & _ & _ & _ & H).
    destruct H as [HX _]; [vm_compute; discriminate|].
    rewrite HX. vm_compute. reflexivity.
Defined.

(** *** Moving the clock *)

Lemma sub_u32_shift (k : Z) (b : Board) (n : nat) (last : Z) :
  sub_u32 (time_at (shift_board k b) n) (wrap_u32 (last + k))
  = sub_u32 (time_at b n) last.
Proof.
  unfold sub_u32, time_at, wrap_u32, shift_board. cbn [clock].
  rewrite Zminus_mod_idemp_l, Zminus_mod_idemp_r, Zminus_mod_idemp_l.
  f_equal. lia.
Qed.

(** C9. Each of the three gate tests is the comparison of
    [(now - last) mod 2^32] with the interval, where [now] is the clock
    reading and [last] the stored timestamp of the method's domain.  The
    outcome is therefore the same in any two situations with the same
    interval and the same difference modulo 2^32, and it does not change
    when the clock and the stored timestamps are advanced together by any
    amount, across a wrap of the clock included. *)
Theorem C9_gate_is_modular_difference (b : Board) (s : Sketch) :
  let n := length (trace s) in
  let g := self s in
  let elapsedD := (time_at b n - _timeLastDigital g) mod 2 ^ 32 in
  let elapsedA := (time_at b n - _timeLastAnalog g) mod 2 ^ 32 in
  (gated getSwitch b s = (elapsedD <? _timeBetweenReads g) /\
   forall sw,
     gated (getJoystickDirection sw) b s = (elapsedA <? _timeBetweenReads g) /\
     gated (getJoystickValue sw) b s = (elapsedA <? _timeBetweenReads g))
  /\
  (forall (b' : Board) (s' : Sketch),
      _timeBetweenReads (self s') = _timeBetweenReads g ->
      ((time_at b' (length (trace s')) - _timeLastDigital (self s'))
         mod 2 ^ 32 = elapsedD ->
       gated getSwitch b' s' = gated getSwitch b s) /\
      ((time_at b' (length (trace s')) - _timeLastAnalog (self s'))
         mod 2 ^ 32 = elapsedA ->
       forall sw,
         gated (getJoystickDirection sw) b' s'
         = gated (getJoystickDirection sw) b s /\
         gated (getJoystickValue sw) b' s'
         = gated (getJoystickValue sw) b s))
  /\
  (forall k : Z,
      gated getSwitch (shift_board k b) (shift_sketch k s)
      = gated getSwitch b s /\
      forall sw,
        gated (getJoystickDirection sw) (shift_board k b) (shift_sketch k s)
        = gated (getJoystickDirection sw) b s /\
        gated (getJoystickValue sw) (shift_board k b) (shift_sketch k s)
        = gated (getJoystickValue sw) b s).
Proof.
  intros n g elapsedD elapsedA. split; [|split].
  - split; [apply gated_getSwitch|].
    intros sw. split;
      [apply gated_getJoystickDirection | apply gated_getJoystickValue].
  - intros b' s' Hint. split.
    + intros HD. rewrite !gated_getSwitch.
      unfold sub_u32, wrap_u32. rewrite HD, Hint. reflexivity.
    + intros HA sw.
      rewrite !gated_getJoystickDirection, !gated_getJoystickValue.
      unfold sub_u32, wrap_u32. rewrite HA, Hint. auto.
  - intros k. split; [|intros sw; split].
    + rewrite !gated_getSwitch. cbn [shift_sketch trace self shift_gamepad
        _timeLastDigital _timeBetweenReads].
      rewrite sub_u32_shift. reflexivity.
    + rewrite !gated_getJoystickDirection. cbn [shift_sketch trace self
        shift_gamepad _timeLastAnalog _timeBetweenReads].
      rewrite sub_u32_shift. reflexivity.
    + rewrite !gated_getJoystickValue. cbn [shift_sketch trace self
        shift_gamepad _timeLastAnalog _timeBetweenReads].
      rewrite sub_u32_shift. reflexivity.
Qed.

(** A timestamp taken 10 ms before the clock wraps and a reading taken 5 ms
    after the wrap are 15 ms apart: with an interval of 100 the poll is
    gated, exactly as with the timestamp 1000 and the reading 1015. *)
Lemma C9_witness :
  let wrapped := mkSketch [] (mkGamepad (2 ^ 32 - 10) 0 100 5 512 500 0 0) in
  let plain := mkSketch [] (mkGamepad 1000 0 100 5 512 500 0 0) in
  let b5 := sim_board 5 [] (fun _ => 512) (fun _ => 500) in
  let b1015 := sim_board 1015 [] (fun _ => 512) (fun _ => 500) in
  gated getSwitch b5 wrapped = gated getSwitch b1015 plain /\
  gated getSwitch b5 wrapped = true.
Proof.
  intros wrapped plain b5 b1015.
  destruct (C9_gate_is_modular_difference b1015 plain) as (_ & H & _).
  destruct (H b5 wrapped) as [HD _]; [reflexivity|].
  split.
  - apply HD. vm_compute. reflexivity.
  - rewrite HD; vm_compute; reflexivity.
Defined.

(** C10. When the analog interval has elapsed, [getJoystickValue] with a
    selector other than [SW_X] and [SW_Y] returns 0 and takes no sample, yet
    stores the fresh clock reading as the analog timestamp and leaves the
    cached values as they were.  A read of the X or Y axis that follows
    within the interval is therefore gated: it returns the old cached value
    of the axis and takes no sample either. *)
Theorem C10_invalid_selector_restarts_window
        (sw : switch_t) (b : Board) (tr : list event) (g : MD_Gamepad) :
  sw <> SW_X -> sw <> SW_Y ->
  _timeBetweenReads g <= sub_u32 (time_at b (length tr)) (_timeLastAnalog g) ->
  let now := time_at b (S (length tr)) in
  let tr1 := EvMillis now :: EvMillis (time_at b (length tr)) :: tr in
  let g1 := mkGamepad (_timeLastDigital g) now (_timeBetweenReads g)
                      (_deadband g) (_offsetX g) (_offsetY g)
                      (_valueX g) (_valueY g) in
  getJoystickValue sw b (mkSketch tr g) = (0, mkSketch tr1 g1)
  /\
  (sub_u32 (time_at b (S (S (length tr)))) now < _timeBetweenReads g ->
   let tr2 := EvMillis (time_at b (S (S (length tr)))) :: tr1 in
   getJoystickValue SW_X b (mkSketch tr1 g1) = (_valueX g, mkSketch tr2 g1) /\
   getJoystickValue SW_Y b (mkSketch tr1 g1) = (_valueY g, mkSketch tr2 g1) /\
   analog_reads tr2 = analog_reads tr).
Proof.
  intros HX HY Hdue now tr1 g1.
  assert (Hg : set_timeLastAnalog now g = g1).
  { unfold set_timeLastAnalog, g1, now, time_at. rewrite wrap_u32_idem.
    reflexivity. }
  split.
  - rewrite (getJoystickValue_due_other sw b tr g HX HY Hdue).
    fold now. rewrite Hg. reflexivity.
  - intros Hwin tr2.
    assert (Hwin' : sub_u32 (time_at b (length tr1)) (_timeLastAnalog g1)
                    < _timeBetweenReads g1) by exact Hwin.
    split; [|split].
    + apply (getJoystickValue_gated SW_X b tr1 g1 Hwin').
    + apply (getJoystickValue_gated SW_Y b tr1 g1 Hwin').
    + reflexivity.
Qed.

(** After a read of the Y axis cached 37, a call with selector [SW_K] made
    once the interval has elapsed returns 0, and the read of the Y axis that
    follows returns 37 although the stick now stands at 700 against an offset
    of 500. *)
Lemma C10_witness :
  let b := sim_board 1000 [] (fun _ => 512) (fun _ => 700) in
  let g := mkGamepad 0 0 100 5 512 500 0 37 in
  fst ((_ <- getJoystickValue SW_K ;; getJoystickValue SW_Y)
         b (mkSketch [] g)) = 37.
Proof.
  intros b g.
  assert (Hdue : _timeBetweenReads g
                 <= sub_u32 (time_at b (length (@nil event)))
                            (_timeLastAnalog g))
    by (vm_compute; discriminate).
  destruct (C10_invalid_selector_restarts_window SW_K b [] g)
    as [H1 H2]; [discriminate | discriminate | exact Hdue |].
  destruct H2 as (_ & HY & _); [vm_compute; reflexivity|].
  unfold bind. rewrite H1, HY. reflexivity.
Defined.

(** ** Further properties of the methods *)

(** *** The scan in detail *)

Lemma scan_result_in_table (tbl : list pin2sw_t) (b : Board) (s : Sketch) :
  In (fst (scan tbl b s)) (SW_NONE :: map sw tbl).
Proof.
  revert s. induction tbl as [|e rest IH]; intros s.
  - cbn. auto.
  - cbn [scan]. run_gp.
    destruct (pin_high b (length (trace s)) (pin e)); cbn [Z.eqb HIGH LOW].
    + destruct (IH (mkSketch (EvDigitalRead (pin e) HIGH :: trace s)
                             (self s))) as [H|H].
      * left. exact H.
      * right. right. exact H.
    + right. left. reflexivity.
Qed.

Lemma scan_trace_first_low (tbl : list pin2sw_t) (b : Board) (s : Sketch)
      (i : nat) (e : pin2sw_t) :
  nth_error tbl i = Some e ->
  pin_high b (length (trace s) + i) (pin e) = false ->
  (forall j e', (j < i)%nat -> nth_error tbl j = Some e' ->
                pin_high b (length (trace s) + j) (pin e') = true) ->
  trace (snd (scan tbl b s))
  = EvDigitalRead (pin e) LOW :: reads_high (firstn i tbl) ++ trace s.
Proof.
  revert s i. induction tbl as [|e0 rest IH]; intros s i Hi Hlow Hbefore.
  - destruct i; discriminate.
  - cbn [scan]. run_gp. destruct i as [|i].
    + cbn in Hi. injection Hi as ->. rewrite Nat.add_0_r in Hlow.
      rewrite Hlow. reflexivity.
    + assert (H0 : pin_high b (length (trace s)) (pin e0) = true).
      { rewrite <- (Nat.add_0_r (length (trace s))).
        apply Hbefore; [lia | reflexivity]. }
      rewrite H0. cbn [Z.eqb HIGH LOW].
      rewrite (IH _ i); cbn [trace length].
      * unfold reads_high. cbn [firstn map rev].
        rewrite <- app_assoc. reflexivity.
      * exact Hi.
      * rewrite <- Hlow. f_equal. lia.
      * intros j e' Hj Hn.
        replace (S (length (trace s)) + j)%nat
          with (length (trace s) + S j)%nat by lia.
        apply Hbefore; [lia | exact Hn].
Qed.

Lemma scan_trace_none (tbl : list pin2sw_t) (b : Board) (s : Sketch) :
  (forall j e', nth_error tbl j = Some e' ->
                pin_high b (length (trace s) + j) (pin e') = true) ->
  trace (snd (scan tbl b s)) = reads_high tbl ++ trace s.
Proof.
  revert s. induction tbl as [|e0 rest IH]; intros s Hall; [reflexivity|].
  cbn [scan]. run_gp.
  assert (H0 : pin_high b (length (trace s)) (pin e0) = true).
  { rewrite <- (Nat.add_0_r (length (trace s))). apply Hall. reflexivity. }
  rewrite H0. cbn [Z.eqb HIGH LOW]. rewrite IH; cbn [trace length].
  - unfold reads_high. cbn [map rev]. rewrite <- app_assoc. reflexivity.
  - intros j e' Hn.
    replace (S (length (trace s)) + j)%nat
      with (length (trace s) + S j)%nat by lia.
    apply Hall. exact Hn.
Qed.

(** X1. [getSwitch] only ever reports [SW_NONE] or a switch of the table: never
    an axis selector, whatever the board and the state. *)
Theorem getSwitch_reports_table_switch (b : Board) (s : Sketch) :
  In (fst (getSwitch b s))
     [SW_NONE; SW_A; SW_B; SW_C; SW_D; SW_E; SW_F; SW_K] /\
  fst (getSwitch b s) <> SW_X /\ fst (getSwitch b s) <> SW_Y.
Proof.
  assert (H : In (fst (getSwitch b s))
                 [SW_NONE; SW_A; SW_B; SW_C; SW_D; SW_E; SW_F; SW_K]).
  { destruct s as [tr g].
    destruct (Z.lt_ge_cases
                (sub_u32 (time_at b (length tr)) (_timeLastDigital g))
                (_timeBetweenReads g)) as [Hg|Hd].
    - rewrite (getSwitch_gated b tr g Hg). cbn. auto.
    - rewrite (getSwitch_due b tr g Hd).
      apply (scan_result_in_table _pinDigital). }
  split; [exact H|].
  split; intros E; rewrite E in H; cbn in H;
    repeat (destruct H as [H|H]; [discriminate H|]); exact H.
Qed.

(** X2. A poll that is due reads the clock twice and then the pins in table
    order, stopping at the first pin that reads low: the pins of later
    entries are not read.  When every pin reads high it reads all seven. *)
Theorem getSwitch_reads_up_to_first_low
        (b : Board) (tr : list event) (g : MD_Gamepad) :
  _timeBetweenReads g <= sub_u32 (time_at b (length tr)) (_timeLastDigital g) ->
  let clock_reads :=
    [EvMillis (time_at b (S (length tr))); EvMillis (time_at b (length tr))] in
  let after := trace (snd (getSwitch b (mkSketch tr g))) in
  (forall i e,
      nth_error _pinDigital i = Some e ->
      pin_high b (length tr + 2 + i) (pin e) = false ->
      (forall j e', (j < i)%nat -> nth_error _pinDigital j = Some e' ->
                    pin_high b (length tr + 2 + j) (pin e') = true) ->
      after = EvDigitalRead (pin e) LOW
                :: reads_high (firstn i _pinDigital) ++ clock_reads ++ tr /\
      calls_made getSwitch b (mkSketch tr g) = (3 + i)%nat)
  /\
  ((forall j e', nth_error _pinDigital j = Some e' ->
                 pin_high b (length tr + 2 + j) (pin e') = true) ->
   after = reads_high _pinDigital ++ clock_reads ++ tr /\
   calls_made getSwitch b (mkSketch tr g) = 9%nat).
Proof.
  intros Hdue clock_reads after. subst after. unfold calls_made.
  rewrite (getSwitch_due b tr g Hdue). split.
  - intros i e Hi Hlow Hbefore.
    assert (Hlen : (i < length _pinDigital)%nat).
    { apply nth_error_Some. rewrite Hi. discriminate. }
    rewrite (scan_trace_first_low _ _ _ i e Hi); cbn [trace length].
    + split; [reflexivity|].
      cbn [length]. rewrite length_app. unfold reads_high.
      rewrite length_rev, length_map, length_firstn.
      rewrite Nat.min_l by lia. subst clock_reads. cbn [length app]. lia.
    + rewrite <- Hlow. f_equal. lia.
    + intros j e' Hj Hn. rewrite <- (Hbefore j e' Hj Hn). f_equal. lia.
  - intros Hall. rewrite scan_trace_none; cbn [trace length].
    + split; [reflexivity|]. rewrite length_app. subst clock_reads.
      unfold reads_high. rewrite length_rev, length_map.
      cbn [length app _pinDigital]. lia.
    + intros j e' Hn. rewrite <- (Hall j e' Hn). f_equal. lia.
Qed.

(** With the pins of C and E low the poll reads the pins of A, B and C only:
    five primitive calls. *)
Lemma getSwitch_reads_up_to_first_low_witness :
  calls_made getSwitch
             (sim_board 1000 [4; 6] (fun _ => 512) (fun _ => 500))
             (mkSketch [] gamepad) = 5%nat.
Proof.
  assert (Hdue : _timeBetweenReads gamepad
                 <= sub_u32 (time_at (sim_board 1000 [4; 6] (fun _ => 512)
                                                (fun _ => 500))
                                     (length (@nil event)))
                            (_timeLastDigital gamepad))
    by (vm_compute; discriminate).
  destruct (getSwitch_reads_up_to_first_low _ [] gamepad Hdue) as [H _].
  destruct (H 2%nat (mkPin2sw PIN_C SW_C)) as [_ Hc].
  - reflexivity.
  - reflexivity.
  - intros j e' Hj Hn. destruct j as [|[|j]]; [| |lia];
      cbn in Hn; injection Hn as <-; reflexivity.
  - exact Hc.
Defined.

(** *** [anyKey] *)

Lemma anyKey_run (b : Board) (s : Sketch) :
  anyKey b s
  = (negb (switch_eqb (fst (getSwitch b s)) SW_NONE), snd (getSwitch b s)).
Proof. unfold anyKey, bind, ret. destruct (getSwitch b s). reflexivity. Qed.

Lemma first_low_some_low (lv : Z -> bool) (tbl : list pin2sw_t) :
  (forall e, In e tbl -> sw e <> SW_NONE) ->
  negb (switch_eqb (first_low lv tbl) SW_NONE) = some_low lv tbl.
Proof.
  unfold first_low, some_low. induction tbl as [|e rest IH]; intros Hsw.
  - reflexivity.
  - cbn [find existsb]. destruct (lv (pin e)); cbn [negb orb].
    + apply IH. intros e' He'. apply Hsw. right. exact He'.
    + assert (H : sw e <> SW_NONE) by (apply Hsw; left; reflexivity).
      destruct (sw e); try reflexivity. congruence.
Qed.

Lemma table_switches_named (e : pin2sw_t) :
  In e _pinDigital -> sw e <> SW_NONE.
Proof.
  intros H. cbn in H.
  repeat (destruct H as [<-|H]; [discriminate|]). contradiction.
Qed.

(** X3. Inside the digital gate window [anyKey] is false whatever the pins show
    and leaves the object as it was.  When the poll is due and the pin levels
    hold still during the scan, [anyKey] is true exactly when the pin of some
    table entry is low. *)
Theorem anyKey_true_iff_some_pin_low
        (b : Board) (tr : list event) (g : MD_Gamepad) :
  (sub_u32 (time_at b (length tr)) (_timeLastDigital g) < _timeBetweenReads g ->
   anyKey b (mkSketch tr g)
   = (false, mkSketch (EvMillis (time_at b (length tr)) :: tr) g))
  /\
  (_timeBetweenReads g <= sub_u32 (time_at b (length tr)) (_timeLastDigital g) ->
   forall lv : Z -> bool,
     (forall k p, (k < 7)%nat -> pin_high b (length tr + 2 + k) p = lv p) ->
     fst (anyKey b (mkSketch tr g)) = some_low lv _pinDigital).
Proof.
  split.
  - intros H. rewrite anyKey_run, (getSwitch_gated b tr g H). reflexivity.
  - intros H lv Hlv. rewrite anyKey_run, (getSwitch_due b tr g H).
    cbn [fst]. rewrite (scan_steady _ _ _ lv).
    + apply first_low_some_low. exact table_switches_named.
    + cbn [trace length]. intros k p Hk.
      rewrite <- (Hlv k p Hk). f_equal. lia.
Qed.

(** With the pin of K held low: false 3 ms after the last poll, true once
    the interval has elapsed. *)
Lemma anyKey_true_iff_some_pin_low_witness :
  let b := sim_board 1000 [8] (fun _ => 512) (fun _ => 500) in
  fst (anyKey b (mkSketch [] (mkGamepad 997 0 100 5 512 500 0 0))) = false /\
  fst (anyKey b (mkSketch [] (mkGamepad 0 0 100 5 512 500 0 0))) = true.
Proof.
  intros b. split.
  - destruct (anyKey_true_iff_some_pin_low b []
                (mkGamepad 997 0 100 5 512 500 0 0)) as [H _].
    rewrite H; [reflexivity | vm_compute; reflexivity].
  - destruct (anyKey_true_iff_some_pin_low b []
                (mkGamepad 0 0 100 5 512 500 0 0)) as [_ H].
    rewrite (H ltac:(vm_compute; discriminate)
               (fun p => negb (existsb (Z.eqb p) [8]))).
    + reflexivity.
    + intros k p _. reflexivity.
Defined.

(** X4. A poll that was due uses up the interval.  [anyKey] ends in the state
    [getSwitch] ends in, and a poll that follows either of them within the
    interval reports [SW_NONE] (and [anyKey] false), whatever the first one
    found: the usual pair "if anyKey() then getSwitch()" loses the key. *)
Theorem due_poll_gates_the_next
        (b : Board) (tr : list event) (g : MD_Gamepad) :
  _timeBetweenReads g <= sub_u32 (time_at b (length tr)) (_timeLastDigital g) ->
  let s1 := snd (getSwitch b (mkSketch tr g)) in
  let t := time_at b (length (trace s1)) in
  snd (anyKey b (mkSketch tr g)) = s1 /\
  (sub_u32 t (time_at b (S (length tr))) < _timeBetweenReads g ->
   getSwitch b s1 = (SW_NONE, mkSketch (EvMillis t :: trace s1) (self s1)) /\
   anyKey b s1 = (false, mkSketch (EvMillis t :: trace s1) (self s1))).
Proof.
  intros Hdue s1 t. split; [rewrite anyKey_run; reflexivity|].
  intros Hwin.
  assert (Hself : self s1 = set_timeLastDigital (time_at b (S (length tr))) g).
  { unfold s1. rewrite (getSwitch_due b tr g Hdue). apply scan_self. }
  subst t. destruct s1 as [tr1 g1]. cbn [trace self] in *.
  assert (Hg : sub_u32 (time_at b (length tr1)) (_timeLastDigital g1)
               < _timeBetweenReads g1).
  { rewrite Hself. cbn [set_timeLastDigital _timeLastDigital
                        _timeBetweenReads].
    unfold time_at at 2. rewrite wrap_u32_idem. exact Hwin. }
  rewrite anyKey_run, (getSwitch_gated b tr1 g1 Hg). split; reflexivity.
Qed.

(** With the pin of A held low, [anyKey] followed by [getSwitch]: true, then
    [SW_NONE]. *)
Lemma due_poll_gates_the_next_witness :
  let b := sim_board 1000 [2] (fun _ => 512) (fun _ => 500) in
  let s := mkSketch [] (mkGamepad 0 0 100 5 512 500 0 0) in
  fst ((k <- anyKey ;; p <- getSwitch ;; ret (k, p)) b s) = (true, SW_NONE).
Proof.
  intros b s.
  destruct (due_poll_gates_the_next b [] (mkGamepad 0 0 100 5 512 500 0 0))
    as [Hs Hn]; [vm_compute; discriminate|].
  destruct Hn as [Hn _]; [vm_compute; reflexivity|].
  unfold bind, ret, s. rewrite anyKey_run. cbn [fst snd].
  rewrite Hn. vm_compute. reflexivity.
Defined.

(** *** The two domains *)

Lemma getJoystickValue_frame (sw : switch_t) (b : Board) (s : Sketch) :
  let g' := self (snd (getJoystickValue sw b s)) in
  _timeLastDigital g' = _timeLastDigital (self s) /\
  (sw <> SW_X -> _valueX g' = _valueX (self s)) /\
  (sw <> SW_Y -> _valueY g' = _valueY (self s)).
Proof.
  destruct s as [tr g]. cbv zeta. cbn [self].
  destruct (Z.lt_ge_cases
              (sub_u32 (time_at b (length tr)) (_timeLastAnalog g))
              (_timeBetweenReads g)) as [H|H].
  - rewrite (getJoystickValue_gated sw b tr g H). cbn. auto.
  - destruct sw;
      try (rewrite getJoystickValue_due_other by (congruence || exact H);
           cbn; auto).
    + pose proof (getJoystickValue_due_X b tr g H) as E. cbv zeta in E.
      rewrite E. cbn. repeat split; auto. congruence.
    + pose proof (getJoystickValue_due_Y b tr g H) as E. cbv zeta in E.
      rewrite E. cbn. repeat split; auto. congruence.
Qed.

(** A valid-axis read always returns what it leaves in that axis's cache. *)
Lemma axis_read_returns_cache (sw : switch_t) (b : Board) (s : Sketch) :
  sw = SW_X \/ sw = SW_Y ->
  fst (getJoystickValue sw b s)
  = cached sw (self (snd (getJoystickValue sw b s))).
Proof.
  intros Hsw. destruct s as [tr g].
  destruct (Z.lt_ge_cases
              (sub_u32 (time_at b (length tr)) (_timeLastAnalog g))
              (_timeBetweenReads g)) as [H|H].
  - rewrite (getJoystickValue_gated sw b tr g H). reflexivity.
  - destruct Hsw as [-> | ->].
    + pose proof (getJoystickValue_due_X b tr g H) as E. cbv zeta in E.
      rewrite E. reflexivity.
    + pose proof (getJoystickValue_due_Y b tr g H) as E. cbv zeta in E.
      rewrite E. reflexivity.
Qed.

(** X5. Each reading method writes only to its own domain.  [getSwitch] changes
    nothing but the digital timestamp.  [getJoystickValue] and
    [getJoystickDirection] never change the digital timestamp, the interval,
    the deadband or the offsets, and never change the cached value of an
    axis other than the one asked for. *)
Theorem reads_write_only_their_domain (b : Board) (s : Sketch) :
  let g := self s in
  (let g1 := self (snd (getSwitch b s)) in
   _timeLastAnalog g1 = _timeLastAnalog g /\ config g1 = config g /\
   _valueX g1 = _valueX g /\ _valueY g1 = _valueY g)
  /\
  (forall sw,
      let g2 := self (snd (getJoystickValue sw b s)) in
      _timeLastDigital g2 = _timeLastDigital g /\ config g2 = config g /\
      (sw <> SW_X -> _valueX g2 = _valueX g) /\
      (sw <> SW_Y -> _valueY g2 = _valueY g))
  /\
  (forall sw,
      let g3 := self (snd (getJoystickDirection sw b s)) in
      _timeLastDigital g3 = _timeLastDigital g /\ config g3 = config g /\
      (sw <> SW_X -> _valueX g3 = _valueX g) /\
      (sw <> SW_Y -> _valueY g3 = _valueY g)).
Proof.
  intros g. split; [|split].
  - intros g1. subst g1 g. destruct s as [tr g]. cbn [self].
    destruct (Z.lt_ge_cases
                (sub_u32 (time_at b (length tr)) (_timeLastDigital g))
                (_timeBetweenReads g)) as [H|H].
    + rewrite (getSwitch_gated b tr g H). cbn. auto.
    + rewrite (getSwitch_due b tr g H), scan_self. cbn. auto.
  - intros sw g2. subst g2 g.
    pose proof (getJoystickValue_frame sw b s) as F. cbv zeta in F.
    destruct F as (F1 & F2 & F3).
    split; [exact F1 | split; [apply getJoystickValue_config | auto]].
  - intros sw g3. subst g3 g.
    split; [|split; [apply getJoystickDirection_config|]].
    + destruct s as [tr g]. cbn [self].
      destruct (Z.lt_ge_cases
                  (sub_u32 (time_at b (length tr)) (_timeLastAnalog g))
                  (_timeBetweenReads g)) as [H|H].
      * rewrite (getJoystickDirection_gated sw b tr g H). reflexivity.
      * pose proof (getJoystickDirection_due sw b tr g H) as E.
        cbv zeta in E. rewrite E. cbn [snd].
        pose proof (getJoystickValue_frame sw b
                      (mkSketch (EvMillis (time_at b (length tr)) :: tr) g))
          as F.
        cbv zeta in F. apply F.
    + destruct s as [tr g]. cbn [self].
      destruct (Z.lt_ge_cases
                  (sub_u32 (time_at b (length tr)) (_timeLastAnalog g))
                  (_timeBetweenReads g)) as [H|H].
      * rewrite (getJoystickDirection_gated sw b tr g H). cbn. auto.
      * pose proof (getJoystickDirection_due sw b tr g H) as E.
        cbv zeta in E. rewrite E. cbn [snd].
        pose proof (getJoystickValue_frame sw b
                      (mkSketch (EvMillis (time_at b (length tr)) :: tr) g))
          as F.
        cbv zeta in F. cbn [self] in F. destruct F as (_ & F2 & F3).
        split; assumption.
Qed.

(** A read of the X axis with the stick moved leaves the cached Y value 37
    and the digital timestamp 900 in place. *)
Lemma reads_write_only_their_domain_witness :
  let b := sim_board 1000 [] (fun _ => 712) (fun _ => 300) in
  let s := mkSketch [] (mkGamepad 900 0 100 5 512 500 0 37) in
  _valueY (self (snd (getJoystickValue SW_X b s))) = 37 /\
  _timeLastDigital (self (snd (getJoystickValue SW_X b s))) = 900.
Proof.
  intros b s.
  destruct (reads_write_only_their_domain b s) as (_ & H & _).
  destruct (H SW_X) as (HD & _ & _ & HY).
  split; [apply HY; discriminate | exact HD].
Defined.

(** X6. The two axes share one timestamp.  After a read of one axis that was
    due, a read of the other axis within the interval is gated: it returns
    the value cached for that axis before, and takes no sample. *)
Theorem axes_share_one_gate (b : Board) (tr : list event) (g : MD_Gamepad) :
  _timeBetweenReads g <= sub_u32 (time_at b (length tr)) (_timeLastAnalog g) ->
  sub_u32 (time_at b (3 + length tr)) (time_at b (1 + length tr))
  < _timeBetweenReads g ->
  let sx := snd (getJoystickValue SW_X b (mkSketch tr g)) in
  let sy := snd (getJoystickValue SW_Y b (mkSketch tr g)) in
  let t := EvMillis (time_at b (3 + length tr)) in
  getJoystickValue SW_Y b sx = (_valueY g, mkSketch (t :: trace sx) (self sx))
  /\
  getJoystickValue SW_X b sy = (_valueX g, mkSketch (t :: trace sy) (self sy)).
Proof.
  intros Hdue Hwin sx sy t.
  pose proof (getJoystickValue_due_X b tr g Hdue) as EX.
  pose proof (getJoystickValue_due_Y b tr g Hdue) as EY.
  cbv zeta in EX, EY. subst sx sy t. rewrite EX, EY. cbn [snd trace self].
  split.
  - match goal with
    | |- getJoystickValue _ b (mkSketch ?t1 ?g1) = _ =>
        rewrite (getJoystickValue_gated SW_Y b t1 g1)
    end.
    + reflexivity.
    + cbn [length _timeLastAnalog _timeBetweenReads].
      unfold time_at at 2. rewrite wrap_u32_idem. exact Hwin.
  - match goal with
    | |- getJoystickValue _ b (mkSketch ?t1 ?g1) = _ =>
        rewrite (getJoystickValue_gated SW_X b t1 g1)
    end.
    + reflexivity.
    + cbn [length _timeLastAnalog _timeBetweenReads].
      unfold time_at at 2. rewrite wrap_u32_idem. exact Hwin.
Qed.

(** Both axes are pushed; X is read first (200), and the read of Y that
    follows at once returns the old cached 0, not 200. *)
Lemma axes_share_one_gate_witness :
  let b := sim_board 1000 [] (fun _ => 712) (fun _ => 700) in
  let s := mkSketch [] (mkGamepad 0 0 100 5 512 500 0 0) in
  fst ((x <- getJoystickValue SW_X ;; y <- getJoystickValue SW_Y ;;
        ret (x, y)) b s) = (200, 0).
Proof.
  intros b s.
  destruct (axes_share_one_gate b [] (mkGamepad 0 0 100 5 512 500 0 0))
    as [H _]; [vm_compute; discriminate | vm_compute; reflexivity |].
  unfold bind, ret, s.
  destruct (getJoystickValue SW_X b
              (mkSketch [] (mkGamepad 0 0 100 5 512 500 0 0)))
    as [x sx] eqn:E.
  cbn [snd] in H. rewrite H. cbn [fst].
  assert (Hx : x = fst (getJoystickValue SW_X b
                          (mkSketch [] (mkGamepad 0 0 100 5 512 500 0 0))))
    by (rewrite E; reflexivity).
  rewrite Hx. vm_compute. reflexivity.
Defined.

(** *** The direction of an axis *)

Lemma sgn_deadbanded (d db : Z) :
  0 < db -> Z.sgn (deadbanded d db) = side d db.
Proof.
  intros Hdb. unfold deadbanded, side.
  destruct (Z.ltb_spec (Z.abs d) db), (Z.leb_spec db d),
    (Z.leb_spec d (- db)); lia.
Qed.

(** X7. A direction query that is due, and whose inner [getJoystickValue] is due
    as well at the next clock reading, samples the axis once, at the fourth
    primitive call.  With a positive deadband it returns +1 when the sample
    exceeds the offset by at least the deadband, -1 when it falls short of
    the offset by at least the deadband, and 0 in between.  The difference
    is assumed to fit [int16_t]. *)
Theorem direction_thresholds (b : Board) (tr : list event) (g : MD_Gamepad) :
  _timeBetweenReads g <= sub_u32 (time_at b (length tr)) (_timeLastAnalog g) ->
  _timeBetweenReads g
  <= sub_u32 (time_at b (S (length tr))) (_timeLastAnalog g) ->
  0 < _deadband g ->
  let rawX := adc b (3 + length tr) (PIN_X b) in
  let rawY := adc b (3 + length tr) (PIN_Y b) in
  (- 2 ^ 15 < rawX - _offsetX g < 2 ^ 15 ->
   fst (getJoystickDirection SW_X b (mkSketch tr g))
   = side (rawX - _offsetX g) (_deadband g) /\
   analog_reads (trace (snd (getJoystickDirection SW_X b (mkSketch tr g))))
   = S (analog_reads tr))
  /\
  (- 2 ^ 15 < rawY - _offsetY g < 2 ^ 15 ->
   fst (getJoystickDirection SW_Y b (mkSketch tr g))
   = side (rawY - _offsetY g) (_deadband g) /\
   analog_reads (trace (snd (getJoystickDirection SW_Y b (mkSketch tr g))))
   = S (analog_reads tr)).
Proof.
  intros Hdue1 Hdue2 Hdb rawX rawY.
  pose (tr1 := EvMillis (time_at b (length tr)) :: tr).
  assert (Hdue2' : _timeBetweenReads g
                   <= sub_u32 (time_at b (length tr1)) (_timeLastAnalog g))
    by exact Hdue2.
  split; intros Hfit.
  - pose proof (getJoystickDirection_due SW_X b tr g Hdue1) as E.
    cbv zeta in E. rewrite E. fold tr1.
    pose proof (getJoystickValue_due_X b tr1 g Hdue2') as EX.
    cbv zeta in EX. rewrite EX. cbn [fst snd trace analog_reads].
    change (adc b (S (S (length tr1))) (PIN_X b)) with rawX.
    rewrite conditioned_exact by lia.
    split; [apply sgn_deadbanded; exact Hdb | reflexivity].
  - pose proof (getJoystickDirection_due SW_Y b tr g Hdue1) as E.
    cbv zeta in E. rewrite E. fold tr1.
    pose proof (getJoystickValue_due_Y b tr1 g Hdue2') as EY.
    cbv zeta in EY. rewrite EY. cbn [fst snd trace analog_reads].
    change (adc b (S (S (length tr1))) (PIN_Y b)) with rawY.
    rewrite conditioned_exact by lia.
    split; [apply sgn_deadbanded; exact Hdb | reflexivity].
Qed.

(** Offset 512, deadband 5: a sample of 517 points to +1; offset 500: a
    sample of 496 points to 0. *)
Lemma direction_thresholds_witness :
  let b := sim_board 1000 [] (fun _ => 517) (fun _ => 496) in
  let g := mkGamepad 0 0 100 5 512 500 0 0 in
  fst (getJoystickDirection SW_X b (mkSketch [] g)) = 1 /\
  fst (getJoystickDirection SW_Y b (mkSketch [] g)) = 0.
Proof.
  intros b g.
  destruct (direction_thresholds b [] g) as [HX HY];
    [vm_compute; discriminate | vm_compute; discriminate | reflexivity |].
  split.
  - destruct HX as [H _]; [vm_compute; split; reflexivity|].
    rewrite H. reflexivity.
  - destruct HY as [H _]; [vm_compute; split; reflexivity|].
    rewrite H. reflexivity.
Defined.

(** X8. A direction query that is due and a value query for the same axis that
    follows within the interval agree: the direction returned is the sign of
    the value returned. *)
Theorem direction_then_value_agree
        (sw : switch_t) (b : Board) (tr : list event) (g : MD_Gamepad) :
  sw = SW_X \/ sw = SW_Y ->
  _timeBetweenReads g <= sub_u32 (time_at b (length tr)) (_timeLastAnalog g) ->
  let s1 := snd (getJoystickDirection sw b (mkSketch tr g)) in
  sub_u32 (time_at b (length (trace s1))) (_timeLastAnalog (self s1))
  < _timeBetweenReads g ->
  fst (getJoystickDirection sw b (mkSketch tr g))
  = Z.sgn (fst (getJoystickValue sw b s1)).
Proof.
  intros Hsw Hdue s1 Hwin.
  pose proof (getJoystickDirection_due sw b tr g Hdue) as E. cbv zeta in E.
  assert (Hi : _timeBetweenReads (self s1) = _timeBetweenReads g).
  { apply (config_interval _ _
             (getJoystickDirection_config sw b (mkSketch tr g))). }
  unfold s1 in *. rewrite E in *. cbn [fst snd] in *.
  rewrite (axis_read_returns_cache sw b _ Hsw).
  destruct (snd (getJoystickValue sw b
                   (mkSketch (EvMillis (time_at b (length tr)) :: tr) g)))
    as [tr1 g1].
  cbn [trace self] in *. rewrite <- Hi in Hwin.
  rewrite (getJoystickValue_gated sw b tr1 g1 Hwin). reflexivity.
Qed.

(** The stick 200 below its offset: direction -1, then value -200. *)
Lemma direction_then_value_agree_witness :
  let b := sim_board 1000 [] (fun _ => 312) (fun _ => 500) in
  let s := mkSketch [] (mkGamepad 0 0 100 5 512 500 0 0) in
  fst (getJoystickDirection SW_X b s) = -1 /\
  fst (getJoystickValue SW_X b (snd (getJoystickDirection SW_X b s))) = -200.
Proof.
  intros b s.
  assert (Hv : fst (getJoystickValue SW_X b
                      (snd (getJoystickDirection SW_X b s))) = -200)
    by (vm_compute; reflexivity).
  split; [|exact Hv].
  unfold s.
  rewrite (direction_then_value_agree SW_X b []
             (mkGamepad 0 0 100 5 512 500 0 0));
    [ fold s; rewrite Hv; reflexivity
    | left; reflexivity
    | vm_compute; discriminate
    | vm_compute; reflexivity ].
Defined.

(** *** [begin] *)

(** What one run of [begin] leaves behind. *)
Lemma begin_run (b : Board) (tr : list event) (g : MD_Gamepad) :
  let x := adc b (9 + length tr) (PIN_X b) in
  let y := adc b (10 + length tr) (PIN_Y b) in
  begin b (mkSketch tr g)
  = (tt,
     mkSketch
       (EvAnalogRead (PIN_Y b) y :: EvAnalogRead (PIN_X b) x
          :: EvPinMode (PIN_Y b) INPUT :: EvPinMode (PIN_X b) INPUT
          :: EvPinMode PIN_K INPUT_PULLUP :: EvPinMode PIN_F INPUT_PULLUP
          :: EvPinMode PIN_E INPUT_PULLUP :: EvPinMode PIN_D INPUT_PULLUP
          :: EvPinMode PIN_C INPUT_PULLUP :: EvPinMode PIN_B INPUT_PULLUP
          :: EvPinMode PIN_A INPUT_PULLUP :: tr)
       (mkGamepad (_timeLastDigital g) (_timeLastAnalog g)
                  DEFAULT_DELAY DEFAULT_DB (wrap_u16 x) (wrap_u16 y)
                  (_valueX g) (_valueY g))).
Proof. reflexivity. Qed.

(** X9. After [begin] both analog pins are inputs without pull-up, and every pin
    of the table that is not one of the two analog pins is an input with
    pull-up, so that an open switch reads high.  No other pin is given a
    mode. *)
Theorem begin_pin_modes (b : Board) (s : Sketch) :
  let after := trace (snd (begin b s)) in
  mode_of after (PIN_X b) = Some INPUT /\
  mode_of after (PIN_Y b) = Some INPUT /\
  (forall e, In e _pinDigital ->
             pin e <> PIN_X b -> pin e <> PIN_Y b ->
             mode_of after (pin e) = Some INPUT_PULLUP) /\
  (forall p, p <> PIN_X b -> p <> PIN_Y b ->
             ~ In p (map pin _pinDigital) ->
             mode_of after p = mode_of (trace s) p).
Proof.
  destruct s as [tr g]. intros after. subst after.
  pose proof (begin_run b tr g) as E. cbv zeta in E. rewrite E.
  cbn [snd trace mode_of]. clear E.
  split; [|split; [|split]].
  - destruct (PIN_Y b =? PIN_X b); [reflexivity|].
    rewrite Z.eqb_refl. reflexivity.
  - rewrite Z.eqb_refl. reflexivity.
  - intros e He HX HY.
    apply Z.eqb_neq in HX, HY. rewrite Z.eqb_sym in HX, HY.
    rewrite HX, HY. cbn in He.
    repeat (destruct He as [<-|He]; [reflexivity|]). contradiction.
  - intros p HX HY Hp.
    apply Z.eqb_neq in HX, HY. rewrite Z.eqb_sym in HX, HY.
    rewrite HX, HY.
    cbn [map _pinDigital pin In] in Hp.
    repeat match goal with
           | |- context [?q =? p] =>
               destruct (Z.eqb_spec q p) as [Heq|_];
               [exfalso; apply Hp; rewrite Heq; auto 10|]
           end.
    reflexivity.
Qed.

(** On a board with A0 = 14 and A1 = 15 the pin of switch E ends up with its
    pull-up on, and pin 13 keeps the mode it had. *)
Lemma begin_pin_modes_witness :
  let b := sim_board 1000 [] (fun _ => 512) (fun _ => 500) in
  let s := mkSketch [EvPinMode 13 OUTPUT] gamepad in
  mode_of (trace (snd (begin b s))) PIN_E = Some INPUT_PULLUP /\
  mode_of (trace (snd (begin b s))) 13 = Some OUTPUT.
Proof.
  intros b s.
  destruct (begin_pin_modes b s) as (_ & _ & Ht & Ho).
  split.
  - apply (Ht (mkPin2sw PIN_E SW_E)).
    + cbn. auto 10.
    + discriminate.
    + discriminate.
  - rewrite Ho; [reflexivity | discriminate | discriminate |].
    cbn. intros H.
    repeat (destruct H as [H|H]; [discriminate H|]). exact H.
Defined.

(** X10. Calibration.  A read of an axis that is due right after [begin] returns
    how far the sample has moved from the sample [begin] took of the same
    pin, or 0 when it has moved by less than [DEFAULT_DB].  The sample taken
    by [begin] is assumed to fit [uint16_t] and the movement [int16_t]. *)
Theorem read_after_begin_is_relative_to_rest
        (b : Board) (tr : list event) (g : MD_Gamepad) :
  DEFAULT_DELAY
  <= sub_u32 (time_at b (11 + length tr)) (_timeLastAnalog g) ->
  let x0 := adc b (9 + length tr) (PIN_X b) in
  let x1 := adc b (13 + length tr) (PIN_X b) in
  let y0 := adc b (10 + length tr) (PIN_Y b) in
  let y1 := adc b (13 + length tr) (PIN_Y b) in
  (0 <= x0 < 2 ^ 16 -> - 2 ^ 15 < x1 - x0 < 2 ^ 15 ->
   fst ((begin ;; getJoystickValue SW_X) b (mkSketch tr g))
   = deadbanded (x1 - x0) DEFAULT_DB)
  /\
  (0 <= y0 < 2 ^ 16 -> - 2 ^ 15 < y1 - y0 < 2 ^ 15 ->
   fst ((begin ;; getJoystickValue SW_Y) b (mkSketch tr g))
   = deadbanded (y1 - y0) DEFAULT_DB).
Proof.
  intros Hdue x0 x1 y0 y1.
  pose proof (begin_run b tr g) as E. cbv zeta in E.
  fold x0 y0 in E.
  split; intros H0 Hfit; unfold bind; rewrite E.
  - match goal with
    | |- fst (getJoystickValue _ b (mkSketch ?t1 ?g1)) = _ =>
        pose proof (getJoystickValue_due_X b t1 g1 Hdue) as EX
    end.
    cbv zeta in EX. rewrite EX. cbn [fst _offsetX _deadband length].
    change (adc b (S (S (S (S (S (S (S (S (S (S (S (S (S (length tr))))))))))))))
                (PIN_X b)) with x1.
    rewrite (wrap_u16_small x0 H0). apply conditioned_exact. lia.
  - match goal with
    | |- fst (getJoystickValue _ b (mkSketch ?t1 ?g1)) = _ =>
        pose proof (getJoystickValue_due_Y b t1 g1 Hdue) as EY
    end.
    cbv zeta in EY. rewrite EY. cbn [fst _offsetY _deadband length].
    change (adc b (S (S (S (S (S (S (S (S (S (S (S (S (S (length tr))))))))))))))
                (PIN_Y b)) with y1.
    rewrite (wrap_u16_small y0 H0). apply conditioned_exact. lia.
Qed.

(** The stick rests at 512 / 500 during [begin]; afterwards X stands at 515
    (inside the deadband) and Y at 420. *)
Lemma read_after_begin_is_relative_to_rest_witness :
  let b := sim_board 1000 []
             (fun n => if (n <? 11)%nat then 512 else 515)
             (fun n => if (n <? 11)%nat then 500 else 420) in
  fst ((begin ;; getJoystickValue SW_X) b (mkSketch [] gamepad)) = 0 /\
  fst ((begin ;; getJoystickValue SW_Y) b (mkSketch [] gamepad)) = -80.
Proof.
  intros b.
  destruct (read_after_begin_is_relative_to_rest b [] gamepad) as [HX HY];
    [vm_compute; discriminate|].
  split.
  - rewrite HX; [reflexivity | vm_compute; split; [discriminate|reflexivity]
                | vm_compute; split; reflexivity].
  - rewrite HY; [reflexivity | vm_compute; split; [discriminate|reflexivity]
                | vm_compute; split; reflexivity].
Defined.






(** X12. [begin] overwrites the interval: a delay set before [begin] is replaced
    by [DEFAULT_DELAY], while a delay set after [begin] stays, also through
    any number of reads, until [begin] or [setReadDelay] is called again. *)
Theorem delay_must_be_set_after_begin
        (d : Z) (b : Board) (s : Sketch) (reads : list call) :
  0 <= d < 2 ^ 16 ->
  Forall (fun c => match c with
                   | CallBegin | CallSetReadDelay _ => False
                   | _ => True
                   end) reads ->
  _timeBetweenReads
    (self (snd ((setReadDelay d ;; begin ;; perform_all reads) b s)))
  = DEFAULT_DELAY /\
  _timeBetweenReads
    (self (snd ((begin ;; setReadDelay d ;; perform_all reads) b s)))
  = d.
Proof.
  intros Hd Hreads.
  assert (Hkeep : forall i, fold_left configure reads i = i).
  { induction Hreads as [|c rest Hc _ IH]; intros i; [reflexivity|].
    cbn [fold_left]. rewrite IH. destruct c; cbn; tauto. }
  split.
  - unfold bind at 1. unfold setReadDelay, update at 1. unfold bind.
    destruct (begin b _) as [u s1] eqn:E.
    pose proof (perform_all_config reads b s1) as H. cbv zeta in H.
    destruct H as [H _]. rewrite H, Hkeep.
    match type of E with
    | begin b ?s0 = _ => destruct (begin_config b s0) as [Hb _]
    end.
    rewrite E in Hb. exact Hb.
  - unfold bind. destruct (begin b s) as [u s1].
    unfold setReadDelay, update.
    match goal with
    | |- context [perform_all reads b ?s2] =>
        pose proof (perform_all_config reads b s2) as H
    end.
    cbv zeta in H. destruct H as [H _]. rewrite H, Hkeep.
    cbn [self _timeBetweenReads set_timeBetweenReads].
    apply wrap_u16_small. exact Hd.
Qed.

(** A delay of 20 ms set before [begin] is lost; set after [begin] it is
    still in force after a poll and an axis read. *)
Lemma delay_must_be_set_after_begin_witness :
  let b := sim_board 1000 [] (fun _ => 512) (fun _ => 500) in
  let reads := [CallGetSwitch; CallGetJoystickValue SW_X] in
  _timeBetweenReads
    (self (snd ((setReadDelay 20 ;; begin ;; perform_all reads)
                  b (mkSketch [] gamepad)))) = 100 /\
  _timeBetweenReads
    (self (snd ((begin ;; setReadDelay 20 ;; perform_all reads)
                  b (mkSketch [] gamepad)))) = 20.
Proof.
  intros b reads.
  apply (delay_must_be_set_after_begin 20 b (mkSketch [] gamepad) reads).
  - lia.
  - repeat constructor.
Defined.
